(** * utf8-things: hex code point to UTF-8 string conversion

    A shallow embedding of [src/main.cc] and the properties of its
    specification.

    Conventions of the embedding.
    - [char] is the signed 8-bit type of the usual x86-64 ABI and [int],
      [int32_t] are 32 bits wide.  Both are carried as [Z] together with an
      explicit wrap-around ([to_char], [to_int]) at every conversion.
    - A [std::string_view] is a [string]; [hexChar[i]] is [String.get],
      which answers [None] past the end.  An out-of-range read is undefined
      behaviour in the source, so the functions that index return an
      [option]: [None] stands for "read past the end of the view".
    - A [std::string] result is the list of its [char]s; the empty list is
      the empty string that the source returns on failure. *)

From Stdlib Require Import ZArith List String Ascii Bool Lia.
Import ListNotations.
Local Open Scope string_scope.
Local Open Scope Z_scope.

(** ** Machine integers *)

Module MachineInt.

(** Conversion to a signed integer type of [w] bits (two's complement). *)
Definition wrap_signed (w : Z) (z : Z) : Z :=
  (z + 2 ^ (w - 1)) mod 2 ^ w - 2 ^ (w - 1).

(** Conversion to an unsigned integer type of [w] bits. *)
Definition wrap_unsigned (w : Z) (z : Z) : Z := z mod 2 ^ w.

Definition to_char : Z -> Z := wrap_signed 8.
Definition to_int : Z -> Z := wrap_signed 32.

(** The value of a [char] read as an unsigned byte. *)
Definition byte_of_char (c : Z) : Z := wrap_unsigned 8 c.

(** The [char] stored for a character of the input text. *)
Definition char_of_ascii (a : ascii) : Z := to_char (Z.of_N (N_of_ascii a)).

(** The integral types [T] the parser template can be instantiated at. *)
Record IntegralType : Type := mkIntegral {
  sizeofT : Z;        (* sizeof(T), in bytes *)
  signedT : bool;     (* std::is_signed_v<T> *)
  boolT : bool        (* std::is_same_v<T, bool> *)
}.

Definition int32_t : IntegralType := mkIntegral 4 true false.
Definition uint32_t : IntegralType := mkIntegral 4 false false.
Definition bool_t : IntegralType := mkIntegral 1 false true.

(** Conversion of an [int] to [T]: to [bool], every non-zero value becomes
    [true]; to the other integral types, the value is reduced to the
    width of the type. *)
Definition convert (T : IntegralType) (z : Z) : Z :=
  if boolT T then (if z =? 0 then 0 else 1)
  else if signedT T then wrap_signed (8 * sizeofT T) z
  else wrap_unsigned (8 * sizeofT T) z.

End MachineInt.
Import MachineInt.

(** A small option monad for the reads that may fall outside the view. *)
Definition bind {A B : Type} (m : option A) (k : A -> option B) : option B :=
  match m with
  | Some a => k a
  | None => None
  end.

Notation "x <- m ;; k" := (bind m (fun x => k))
  (at level 61, m at next level, right associativity).

(** ** hexCharToByte (main.cc, lines 9-14) *)

Definition hexCharToByte (c : Z) : Z :=
  to_char
    (if (c >=? 48) && (c <=? 57) then c - 48
     else if (c >=? 97) && (c <=? 102) then c - (97 - 10)
     else if (c >=? 65) && (c <=? 70) then c - (65 - 10)
     else -1).

(** ** UTF-8 byte prefixes (lines 17-20) *)

Definition Utf8ContPrefix : Z := to_char 0x80.
Definition Utf8LatinPrefix : Z := to_char 0xC0.
Definition Utf8MultiLingPrefix : Z := to_char 0xE0.
Definition Utf8ExtendedPrefix : Z := to_char 0xF0.

(** ** Utf8CPType and utf8CodePointType (lines 23-44) *)

Inductive Utf8CPType : Type :=
| Ascii
| Latin
| MultiLingual
| Extended
| Invalid.

Definition utf8CodePointType (codepoint : Z) : Utf8CPType :=
  if (codepoint >=? 0x00000) && (codepoint <=? 0x0007F) then Ascii
  else if (codepoint >=? 0x00080) && (codepoint <=? 0x007FF) then Latin
  else if ((codepoint >=? 0x00800) && (codepoint <? 0x0D800))
          || ((codepoint >? 0x0DFFF) && (codepoint <=? 0x0FFFF))
       then MultiLingual
  else if (codepoint >=? 0x010000) && (codepoint <=? 0x10FFFF) then Extended
  else Invalid.

(** ** hexCharToValue (lines 51-70) *)

(** The loop over the characters of the view.  [cp] and [shift] are the two
    local [int]s.  A left shift whose result leaves the range of [int] is
    reduced modulo [2^32]; with the eight digits that [int32_t] admits this
    happens in the last round only, on a non-negative [cp]. *)
Fixpoint hexCharToValue_loop (hexChar : string) (cp shift : Z) : option Z :=
  match hexChar with
  | EmptyString => Some cp
  | String c rest =>
      let b := hexCharToByte (char_of_ascii c) in
      if b <? 0 then None
      else hexCharToValue_loop rest (Z.lor (to_int (Z.shiftl cp shift)) b) 4
  end.

Definition hexCharToValue (T : IntegralType) (hexChar : string) : option Z :=
  let l := sizeofT T * 2 in
  let len := Z.of_nat (String.length hexChar) in
  if (len =? 0) || negb (len mod 2 =? 0) || (len >? l) then None
  else option_map (convert T) (hexCharToValue_loop hexChar 0 0).

(** ** hexCodepointToUtf8String (lines 73-178) *)

(** [hexCharToByte(hexChar[i])] *)
Definition nibbleAt (hexChar : string) (i : nat) : option Z :=
  option_map (fun a => hexCharToByte (char_of_ascii a)) (String.get i hexChar).

(** The bytes pushed by the Latin case (lines 131-132). *)
Definition latinByte1 (c1 c2 : Z) : Z :=
  to_char (Z.lor (Z.lor Utf8LatinPrefix (Z.shiftl (Z.land c1 7) 2))
                 (Z.shiftr (Z.land c2 12) 2)).
Definition latinByte2 (c2 c3 : Z) : Z :=
  to_char (Z.lor (Z.lor Utf8ContPrefix (Z.shiftl (Z.land c2 3) 4))
                 (Z.land c3 15)).

(** The bytes pushed by the MultiLingual case (lines 147-149). *)
Definition multiLingByte1 (c0 : Z) : Z :=
  to_char (Z.lor Utf8MultiLingPrefix (Z.land c0 15)).
Definition multiLingByte2 (c1 c2 : Z) : Z :=
  to_char (Z.lor (Z.lor Utf8ContPrefix (Z.shiftl (Z.land c1 15) 2))
                 (Z.shiftr (Z.land c2 12) 2)).
Definition multiLingByte3 (c2 c3 : Z) : Z :=
  to_char (Z.lor (Z.lor Utf8ContPrefix (Z.shiftl (Z.land c2 3) 4))
                 (Z.land c3 15)).

(** The bytes pushed by the Extended case (lines 167-170).  In the first
    one the cast to [char] closes before the last [|]: the source reads
    [char(Prefix | ((c0 & 1) << 2)) | ((c1 & 12) >> 2)], and the [int] that
    results is converted to [char] by [push_back]. *)
Definition extendedByte1 (c0 c1 : Z) : Z :=
  to_char (Z.lor (to_char (Z.lor Utf8ExtendedPrefix (Z.shiftl (Z.land c0 1) 2)))
                 (Z.shiftr (Z.land c1 12) 2)).
Definition extendedByte2 (c1 c2 : Z) : Z :=
  to_char (Z.lor (Z.lor Utf8ContPrefix (Z.shiftl (Z.land c1 3) 4))
                 (Z.land c2 15)).
Definition extendedByte3 (c3 c4 : Z) : Z :=
  to_char (Z.lor (Z.lor Utf8ContPrefix (Z.shiftl (Z.land c3 15) 2))
                 (Z.shiftr (Z.land c4 12) 2)).
Definition extendedByte4 (c4 c5 : Z) : Z :=
  to_char (Z.lor (Z.lor Utf8ContPrefix (Z.shiftl (Z.land c4 3) 4))
                 (Z.land c5 15)).

Definition hexCodepointToUtf8String (hexChar : string) : option (list Z) :=
  match hexCharToValue int32_t hexChar with
  | None => Some []
  | Some codepoint =>
      match utf8CodePointType codepoint with
      | Ascii => Some [to_char codepoint]
      | Latin =>
          c1 <- nibbleAt hexChar 1 ;;
          c2 <- nibbleAt hexChar 2 ;;
          c3 <- nibbleAt hexChar 3 ;;
          Some [latinByte1 c1 c2; latinByte2 c2 c3]
      | MultiLingual =>
          c0 <- nibbleAt hexChar 0 ;;
          c1 <- nibbleAt hexChar 1 ;;
          c2 <- nibbleAt hexChar 2 ;;
          c3 <- nibbleAt hexChar 3 ;;
          Some [multiLingByte1 c0; multiLingByte2 c1 c2; multiLingByte3 c2 c3]
      | Extended =>
          c0 <- nibbleAt hexChar 0 ;;
          c1 <- nibbleAt hexChar 1 ;;
          c2 <- nibbleAt hexChar 2 ;;
          c3 <- nibbleAt hexChar 3 ;;
          c4 <- nibbleAt hexChar 4 ;;
          c5 <- nibbleAt hexChar 5 ;;
          Some [extendedByte1 c0 c1; extendedByte2 c1 c2;
                extendedByte3 c3 c4; extendedByte4 c4 c5]
      | Invalid => Some []
      end
  end.

(** The specification's [encode]: the string returned by
    [hexCodepointToUtf8String], read as unsigned bytes. *)
Definition encode (hexDigits : string) : option (list Z) :=
  option_map (map byte_of_char) (hexCodepointToUtf8String hexDigits).


(** ** Notions of the specification *)

(** The hex alphabet of the specification: [0-9], [a-f], [A-F]. *)
Definition hex_alphabet : list ascii :=
  list_ascii_of_string "0123456789abcdefABCDEF".

Definition is_hex_digit (a : ascii) : bool :=
  existsb (Ascii.eqb a) hex_alphabet.

Definition all_hex_digits (s : string) : bool :=
  forallb is_hex_digit (list_ascii_of_string s).

(** The digit values of a hex string, as [hexCharToByte] decodes them. *)
Definition digits (s : string) : list Z :=
  map (fun a => hexCharToByte (char_of_ascii a)) (list_ascii_of_string s).

(** The big-endian value of the specification,
    [sum over i of digit_i * 16^(n-1-i)]. *)
Fixpoint be_sum (ds : list Z) : Z :=
  match ds with
  | [] => 0
  | d :: rest => d * 16 ^ Z.of_nat (List.length rest) + be_sum rest
  end.

(** A code point the specification calls legal: in [0, 0x10FFFF] and not a
    surrogate. *)
Definition legal_code_point (cp : Z) : Prop :=
  0 <= cp <= 0x10FFFF /\ ~ (0xD800 <= cp <= 0xDFFF).

(** Reference UTF-8 decoder for one code point (RFC 3629): the sequence
    must be the shortest form, must not encode a surrogate and must not
    exceed U+10FFFF.  It shares nothing with the encoder. *)
Definition is_continuation (b : Z) : bool := (0x80 <=? b) && (b <=? 0xBF).

Definition utf8_decode (bs : list Z) : option Z :=
  match bs with
  | [b1] =>
      if (0 <=? b1) && (b1 <=? 0x7F) then Some b1 else None
  | [b1; b2] =>
      if (0xC2 <=? b1) && (b1 <=? 0xDF) && is_continuation b2
      then Some ((b1 - 0xC0) * 64 + (b2 - 0x80))
      else None
  | [b1; b2; b3] =>
      if (0xE0 <=? b1) && (b1 <=? 0xEF) && is_continuation b2
         && is_continuation b3
      then
        let cp := (b1 - 0xE0) * 4096 + (b2 - 0x80) * 64 + (b3 - 0x80) in
        if (cp <? 0x800) || ((0xD800 <=? cp) && (cp <=? 0xDFFF)) then None
        else Some cp
      else None
  | [b1; b2; b3; b4] =>
      if (0xF0 <=? b1) && (b1 <=? 0xF4) && is_continuation b2
         && is_continuation b3 && is_continuation b4
      then
        let cp := (b1 - 0xF0) * 262144 + (b2 - 0x80) * 4096
                  + (b3 - 0x80) * 64 + (b4 - 0x80) in
        if (cp <? 0x10000) || (0x10FFFF <? cp) then None else Some cp
      else None
  | _ => None
  end.

(** The hex-string representation of a code point at the width the encoder
    is designed for: four digits up to U+FFFF, six digits above. *)
Definition hex_digit (d : Z) : ascii :=
  nth (Z.to_nat d) (list_ascii_of_string "0123456789ABCDEF") "0"%char.

Definition hex (cp : Z) : string :=
  if cp <=? 0xFFFF then
    String (hex_digit (cp / 4096 mod 16)) (String (hex_digit (cp / 256 mod 16))
      (String (hex_digit (cp / 16 mod 16)) (String (hex_digit (cp mod 16)) "")))
  else
    String (hex_digit (cp / 1048576 mod 16)) (String (hex_digit (cp / 65536 mod 16))
      (String (hex_digit (cp / 4096 mod 16)) (String (hex_digit (cp / 256 mod 16))
        (String (hex_digit (cp / 16 mod 16)) (String (hex_digit (cp mod 16)) "")))))%string.

(** The sixteen nibble values. *)
Definition nibbles : list Z := map Z.of_nat (seq 0 16).

(** The length test of line 56, as the condition under which the parser
    goes on. *)
Definition valid_length (T : IntegralType) (s : string) : bool :=
  let len := Z.of_nat (String.length s) in
  negb (len =? 0) && (len mod 2 =? 0) && (len <=? sizeofT T * 2).

(** The first Extended byte with the cast closed after the last [|], the
    way the other bytes of the source are written. *)
Definition extendedByte1_regrouped (c0 c1 : Z) : Z :=
  to_char (Z.lor (Z.lor Utf8ExtendedPrefix (Z.shiftl (Z.land c0 1) 2))
                 (Z.shiftr (Z.land c1 12) 2)).

(** The upper-case spelling of a character and of a string. *)
Definition to_upper (a : ascii) : ascii :=
  let n := N_of_ascii a in
  if ((97 <=? n) && (n <=? 122))%N then ascii_of_N (n - 32) else a.

Fixpoint string_to_upper (s : string) : string :=
  match s with
  | EmptyString => EmptyString
  | String a rest => String (to_upper a) (string_to_upper rest)
  end.

(** The UTF-8 bytes of a code point computed from its value, the way the
    remark at the end of the long comment of [hexCodepointToUtf8String]
    proposes ("calculate the bytes directly from the codepoint value"). *)
Definition utf8_of_code_point (cp : Z) : list Z :=
  if cp <=? 0x7F then [cp]
  else if cp <=? 0x7FF then [0xC0 + cp / 64; 0x80 + cp mod 64]
  else if cp <=? 0xFFFF then
    [0xE0 + cp / 4096; 0x80 + cp / 64 mod 64; 0x80 + cp mod 64]
  else
    [0xF0 + cp / 262144; 0x80 + cp / 4096 mod 64;
     0x80 + cp / 64 mod 64; 0x80 + cp mod 64].

(** The number of bytes the encoder pushes in each case of its [switch]. *)
Definition plane_length (p : Utf8CPType) : nat :=
  match p with
  | Ascii => 1
  | Latin => 2
  | MultiLingual => 3
  | Extended => 4
  | Invalid => 0
  end.

(** A byte that can open a UTF-8 sequence of [n] bytes: [0xxxxxxx],
    [110xxxxx], [1110xxxx], [11110xxx]. *)
Definition is_lead_byte (n : nat) (b : Z) : bool :=
  match n with
  | 1%nat => (0 <=? b) && (b <=? 0x7F)
  | 2%nat => (0xC0 <=? b) && (b <=? 0xDF)
  | 3%nat => (0xE0 <=? b) && (b <=? 0xEF)
  | 4%nat => (0xF0 <=? b) && (b <=? 0xF7)
  | _ => false
  end.

(** A lead byte for the length of the sequence, then continuation bytes. *)
Definition utf8_shaped (bs : list Z) : bool :=
  match bs with
  | [] => false
  | b :: rest => is_lead_byte (List.length bs) b && forallb is_continuation rest
  end.

(** * Properties *)

(** ** Sample evaluations *)

Example encode_0080 : encode "0080" = Some [0xC2; 0x80].
Proof. vm_compute. reflexivity. Qed.

(** The same eight digits at the two 32-bit target types. *)
Example hexCharToValue_FFFFFFFF :
  hexCharToValue uint32_t "FFFFFFFF" = Some 4294967295
  /\ hexCharToValue int32_t "FFFFFFFF" = Some (-1).
Proof. split; vm_compute; reflexivity. Qed.

(** At [bool] the parsed value collapses to [true]. *)
Example hexCharToValue_bool :
  hexCharToValue bool_t "02" = Some 1 /\ hexCharToValue bool_t "00" = Some 0.
Proof. split; vm_compute; reflexivity. Qed.

Example hex_20AC : hex 0x20AC = "20AC"%string.
Proof. reflexivity. Qed.

Example hex_10FFFF : hex 0x10FFFF = "10FFFF"%string.
Proof. reflexivity. Qed.

(** ** Facts about the machine integers *)

Section MachineIntFacts.

Lemma to_int_small (z : Z) : - 2 ^ 31 <= z < 2 ^ 31 -> to_int z = z.
Proof.
  intros Hz. unfold to_int, wrap_signed.
  change (2 ^ (32 - 1)) with 2147483648. change (2 ^ 32) with 4294967296.
  change (2 ^ 31) with 2147483648 in Hz.
  rewrite Z.mod_small; lia.
Qed.

Lemma to_int_range (z : Z) : - 2 ^ 31 <= to_int z < 2 ^ 31.
Proof.
  unfold to_int, wrap_signed.
  change (2 ^ (32 - 1)) with 2147483648. change (2 ^ 32) with 4294967296.
  change (2 ^ 31) with 2147483648.
  pose proof (Z.mod_pos_bound (z + 2147483648) 4294967296). lia.
Qed.

(** [to_int z] differs from [z] by a multiple of [2^32]. *)
Lemma to_int_spec (z : Z) : exists q, to_int z = z + 4294967296 * q.
Proof.
  exists (- ((z + 2147483648) / 4294967296)).
  unfold to_int, wrap_signed.
  change (2 ^ (32 - 1)) with 2147483648. change (2 ^ 32) with 4294967296.
  pose proof (Z.div_mod (z + 2147483648) 4294967296). lia.
Qed.

Lemma to_int_unique (z r q : Z) :
  r = z + 4294967296 * q -> - 2 ^ 31 <= r < 2 ^ 31 -> to_int z = r.
Proof.
  intros Hr Hran. destruct (to_int_spec z) as [q' Hq'].
  pose proof (to_int_range z) as Hz.
  change (2 ^ 31) with 2147483648 in *. lia.
Qed.

Lemma to_char_small (z : Z) : -128 <= z < 128 -> to_char z = z.
Proof.
  intros Hz. unfold to_char, wrap_signed.
  change (2 ^ (8 - 1)) with 128. change (2 ^ 8) with 256.
  rewrite Z.mod_small; lia.
Qed.

(** OR-ing a nibble into a multiple of 16 adds it. *)
Lemma lor_mul16 (m b : Z) : 0 <= b < 16 -> Z.lor (16 * m) b = 16 * m + b.
Proof.
  intros Hb.
  assert (Hland : Z.land (16 * m) b = 0).
  { apply Z.bits_inj'. intros i Hi.
    rewrite Z.land_spec, Z.bits_0.
    destruct (Z.ltb_spec i 4) as [Hlt | Hge].
    - replace (16 * m) with (m * 2 ^ 4) by lia.
      rewrite Z.mul_pow2_bits_low by lia. reflexivity.
    - replace (Z.testbit b i) with false; [apply andb_false_r |].
      symmetry. destruct (Z.eq_dec b 0) as [-> | Hnz]; [apply Z.bits_0 |].
      apply Z.bits_above_log2; [lia |].
      apply Z.log2_lt_pow2; [lia |].
      apply Z.lt_le_trans with (2 ^ 4); [simpl; lia |].
      apply Z.pow_le_mono_r; lia. }
  rewrite <- Z.lxor_lor by exact Hland.
  symmetry. apply Z.add_nocarry_lxor. exact Hland.
Qed.

(** One round of the parser's accumulation, [(cp << 4) | b]. *)
Lemma accumulate_step (cp b : Z) :
  0 <= b < 16 ->
  Z.lor (to_int (Z.shiftl cp 4)) b = to_int (16 * cp + b).
Proof.
  intros Hb. rewrite Z.shiftl_mul_pow2 by lia. change (2 ^ 4) with 16.
  destruct (to_int_spec (cp * 16)) as [q Hq].
  pose proof (to_int_range (cp * 16)) as Hr.
  change (2 ^ 31) with 2147483648 in Hr.
  rewrite Hq. replace (cp * 16 + 4294967296 * q) with (16 * (cp + 268435456 * q)) by lia.
  rewrite lor_mul16 by exact Hb.
  symmetry. apply to_int_unique with (q := q); [lia |].
  change (2 ^ 31) with 2147483648. lia.
Qed.

End MachineIntFacts.

(** ** Enumerating the nibbles *)

Section NibbleEnumeration.

Lemma nibble_in (n : Z) : 0 <= n < 16 -> In n nibbles.
Proof.
  intros Hn. unfold nibbles.
  rewrite <- (Z2Nat.id n) by lia.
  apply in_map, in_seq. lia.
Qed.

(** A decidable property of one or two nibbles holds for all of them as
    soon as it evaluates to [true] on the 16 (or 256) candidates. *)
Lemma forall_nibble (P : Z -> bool) :
  forallb P nibbles = true -> forall a, 0 <= a < 16 -> P a = true.
Proof.
  intros H a Ha. rewrite forallb_forall in H. apply H, nibble_in, Ha.
Qed.

Lemma forall_nibble2 (P : Z -> Z -> bool) :
  forallb (fun a => forallb (P a) nibbles) nibbles = true ->
  forall a b, 0 <= a < 16 -> 0 <= b < 16 -> P a b = true.
Proof.
  intros H a b Ha Hb. rewrite forallb_forall in H.
  apply (forall_nibble (P a)); [apply H, nibble_in, Ha | exact Hb].
Qed.

End NibbleEnumeration.

(** ** Facts about hexCharToByte *)

Section HexDigitFacts.

(** Checked on each of the 256 characters. *)
Lemma hexCharToByte_classify (a : ascii) :
  (if is_hex_digit a
   then (0 <=? hexCharToByte (char_of_ascii a))
        && (hexCharToByte (char_of_ascii a) <? 16)
   else hexCharToByte (char_of_ascii a) =? -1) = true.
Proof.
  destruct a as [[] [] [] [] [] [] [] []]; vm_compute; reflexivity.
Qed.

Lemma hexCharToByte_digit (a : ascii) :
  is_hex_digit a = true -> 0 <= hexCharToByte (char_of_ascii a) < 16.
Proof.
  intros Ha. pose proof (hexCharToByte_classify a) as H.
  rewrite Ha in H. apply andb_true_iff in H. lia.
Qed.

Lemma hexCharToByte_nondigit (a : ascii) :
  is_hex_digit a = false -> hexCharToByte (char_of_ascii a) = -1.
Proof.
  intros Ha. pose proof (hexCharToByte_classify a) as H.
  rewrite Ha in H. lia.
Qed.

Lemma hexCharToByte_negative_iff (a : ascii) :
  (hexCharToByte (char_of_ascii a) <? 0) = negb (is_hex_digit a).
Proof.
  destruct (is_hex_digit a) eqn:Ha; simpl.
  - apply hexCharToByte_digit in Ha. lia.
  - apply hexCharToByte_nondigit in Ha. rewrite Ha. reflexivity.
Qed.

(** The sixteen values and both letter cases. *)
Example hexCharToByte_values :
  digits "0123456789" = map Z.of_nat (seq 0 10)
  /\ digits "abcdef" = map Z.of_nat (seq 10 6)
  /\ digits "ABCDEF" = map Z.of_nat (seq 10 6).
Proof. repeat split; vm_compute; reflexivity. Qed.

Lemma hex_digit_value (d : Z) :
  0 <= d < 16 ->
  is_hex_digit (hex_digit d) = true
  /\ hexCharToByte (char_of_ascii (hex_digit d)) = d.
Proof.
  intros Hd.
  pose proof (forall_nibble
                (fun v => is_hex_digit (hex_digit v)
                          && (hexCharToByte (char_of_ascii (hex_digit v)) =? v))
                ltac:(vm_compute; reflexivity) d Hd) as H.
  cbv beta in H. apply andb_true_iff in H as [Ha Hv].
  split; [exact Ha | apply Z.eqb_eq, Hv].
Qed.

End HexDigitFacts.

(** ** Facts about hexCharToValue *)

Section ParserFacts.

Lemma digits_cons (a : ascii) (s : string) :
  digits (String a s) = hexCharToByte (char_of_ascii a) :: digits s.
Proof. reflexivity. Qed.

Lemma digits_length (s : string) :
  List.length (digits s) = String.length s.
Proof.
  unfold digits. rewrite length_map.
  induction s as [| a s IH]; simpl; [reflexivity | now rewrite IH].
Qed.

Lemma all_hex_digits_cons (a : ascii) (s : string) :
  all_hex_digits (String a s) = is_hex_digit a && all_hex_digits s.
Proof. reflexivity. Qed.

Lemma be_sum_bounds (s : string) :
  all_hex_digits s = true ->
  0 <= be_sum (digits s) < 16 ^ Z.of_nat (String.length s).
Proof.
  induction s as [| a s IH]; intros Hall.
  - simpl. lia.
  - rewrite all_hex_digits_cons in Hall. apply andb_true_iff in Hall.
    destruct Hall as [Ha Hs]. specialize (IH Hs).
    pose proof (hexCharToByte_digit a Ha) as Hd.
    rewrite digits_cons. cbn [be_sum String.length].
    rewrite digits_length, Nat2Z.inj_succ, Z.pow_succ_r by lia.
    nia.
Qed.

Lemma to_int_shift (z k : Z) : to_int (z + 4294967296 * k) = to_int z.
Proof.
  destruct (to_int_spec z) as [q Hq].
  apply to_int_unique with (q := q - k); [lia | apply to_int_range].
Qed.

(** The loop after its first round: the accumulator is shifted once per
    remaining digit, modulo the width of [int]. *)
Lemma loop_invariant (s : string) (cp : Z) :
  all_hex_digits s = true ->
  - 2 ^ 31 <= cp < 2 ^ 31 ->
  hexCharToValue_loop s cp 4
  = Some (to_int (cp * 16 ^ Z.of_nat (String.length s) + be_sum (digits s))).
Proof.
  revert cp. induction s as [| a s IH]; intros cp Hall Hcp.
  - cbn [hexCharToValue_loop String.length digits list_ascii_of_string map be_sum].
    rewrite Z.pow_0_r, Z.mul_1_r, Z.add_0_r, to_int_small by exact Hcp.
    reflexivity.
  - rewrite all_hex_digits_cons in Hall. apply andb_true_iff in Hall.
    destruct Hall as [Ha Hs].
    pose proof (hexCharToByte_digit a Ha) as Hd.
    cbn [hexCharToValue_loop]. cbv zeta.
    rewrite hexCharToByte_negative_iff, Ha. cbn [negb].
    rewrite accumulate_step by exact Hd.
    rewrite IH by (try exact Hs; apply to_int_range).
    f_equal. rewrite digits_cons. cbn [be_sum String.length].
    rewrite digits_length, Nat2Z.inj_succ, Z.pow_succ_r by lia.
    destruct (to_int_spec (16 * cp + hexCharToByte (char_of_ascii a))) as [q Hq].
    rewrite Hq.
    set (n := 16 ^ Z.of_nat (String.length s)).
    replace ((16 * cp + hexCharToByte (char_of_ascii a) + 4294967296 * q) * n
             + be_sum (digits s))
      with (cp * (16 * n) + (hexCharToByte (char_of_ascii a) * n + be_sum (digits s))
            + 4294967296 * (q * n)) by ring.
    apply to_int_shift.
Qed.

Lemma loop_nondigit (s : string) (cp shift : Z) :
  all_hex_digits s = false -> hexCharToValue_loop s cp shift = None.
Proof.
  revert cp shift. induction s as [| a s IH]; intros cp shift Hall.
  - discriminate Hall.
  - rewrite all_hex_digits_cons in Hall.
    cbn [hexCharToValue_loop]. cbv zeta.
    rewrite hexCharToByte_negative_iff.
    destruct (is_hex_digit a); cbn [negb andb] in *; [| reflexivity].
    apply IH. exact Hall.
Qed.

(** The whole loop, from [cp = 0] and [shift = 0]. *)
Lemma loop_digits (s : string) :
  all_hex_digits s = true ->
  hexCharToValue_loop s 0 0 = Some (to_int (be_sum (digits s))).
Proof.
  destruct s as [| a s]; intros Hall.
  - reflexivity.
  - rewrite all_hex_digits_cons in Hall. apply andb_true_iff in Hall.
    destruct Hall as [Ha Hs].
    pose proof (hexCharToByte_digit a Ha) as Hd.
    cbn [hexCharToValue_loop]. cbv zeta.
    rewrite hexCharToByte_negative_iff, Ha. cbn [negb].
    change (to_int (Z.shiftl 0 0)) with 0. rewrite Z.lor_0_l.
    rewrite loop_invariant by (try exact Hs; simpl; lia).
    rewrite digits_cons. cbn [be_sum]. rewrite digits_length. reflexivity.
Qed.

(** What the parser returns, on every input. *)
Lemma hexCharToValue_char (T : IntegralType) (s : string) :
  hexCharToValue T s
  = if valid_length T s && all_hex_digits s
    then Some (convert T (to_int (be_sum (digits s))))
    else None.
Proof.
  unfold hexCharToValue, valid_length. cbv zeta.
  set (len := Z.of_nat (String.length s)).
  destruct (len =? 0) eqn:E0; cbn [orb negb andb]; [reflexivity |].
  destruct (len mod 2 =? 0) eqn:E2; cbn [orb negb andb]; [| reflexivity].
  replace (len >? sizeofT T * 2) with (negb (len <=? sizeofT T * 2))
    by (rewrite Z.gtb_ltb, Z.leb_antisym, negb_involutive; reflexivity).
  destruct (len <=? sizeofT T * 2); cbn [negb]; [| reflexivity].
  destruct (all_hex_digits s) eqn:Hall.
  - rewrite loop_digits by exact Hall. reflexivity.
  - rewrite loop_nondigit by exact Hall. reflexivity.
Qed.

End ParserFacts.

(** ** The bytes of the encoder, as arithmetic on nibbles *)

Section ByteFacts.

Ltac nibble_check1 P :=
  intros; apply Z.eqb_eq; apply (forall_nibble P);
  [vm_compute; reflexivity | assumption].

Ltac nibble_check2 P :=
  intros; apply Z.eqb_eq; apply (forall_nibble2 P);
  [vm_compute; reflexivity | assumption | assumption].

Lemma latinByte1_bits (c1 c2 : Z) :
  0 <= c1 < 16 -> 0 <= c2 < 16 ->
  byte_of_char (latinByte1 c1 c2) = 0xC0 + c1 mod 8 * 4 + c2 / 4.
Proof.
  nibble_check2
    (fun c1 c2 => byte_of_char (latinByte1 c1 c2) =? 0xC0 + c1 mod 8 * 4 + c2 / 4).
Qed.

Lemma latinByte2_bits (c2 c3 : Z) :
  0 <= c2 < 16 -> 0 <= c3 < 16 ->
  byte_of_char (latinByte2 c2 c3) = 0x80 + c2 mod 4 * 16 + c3.
Proof.
  nibble_check2
    (fun c2 c3 => byte_of_char (latinByte2 c2 c3) =? 0x80 + c2 mod 4 * 16 + c3).
Qed.

Lemma multiLingByte1_bits (c0 : Z) :
  0 <= c0 < 16 -> byte_of_char (multiLingByte1 c0) = 0xE0 + c0.
Proof.
  nibble_check1 (fun c0 => byte_of_char (multiLingByte1 c0) =? 0xE0 + c0).
Qed.

Lemma multiLingByte2_bits (c1 c2 : Z) :
  0 <= c1 < 16 -> 0 <= c2 < 16 ->
  byte_of_char (multiLingByte2 c1 c2) = 0x80 + c1 * 4 + c2 / 4.
Proof.
  nibble_check2
    (fun c1 c2 => byte_of_char (multiLingByte2 c1 c2) =? 0x80 + c1 * 4 + c2 / 4).
Qed.

Lemma multiLingByte3_bits (c2 c3 : Z) :
  0 <= c2 < 16 -> 0 <= c3 < 16 ->
  byte_of_char (multiLingByte3 c2 c3) = 0x80 + c2 mod 4 * 16 + c3.
Proof.
  nibble_check2
    (fun c2 c3 => byte_of_char (multiLingByte3 c2 c3) =? 0x80 + c2 mod 4 * 16 + c3).
Qed.

Lemma extendedByte1_bits (c0 c1 : Z) :
  0 <= c0 < 16 -> 0 <= c1 < 16 ->
  byte_of_char (extendedByte1 c0 c1) = 0xF0 + c0 mod 2 * 4 + c1 / 4.
Proof.
  nibble_check2
    (fun c0 c1 => byte_of_char (extendedByte1 c0 c1) =? 0xF0 + c0 mod 2 * 4 + c1 / 4).
Qed.

Lemma extendedByte2_bits (c1 c2 : Z) :
  0 <= c1 < 16 -> 0 <= c2 < 16 ->
  byte_of_char (extendedByte2 c1 c2) = 0x80 + c1 mod 4 * 16 + c2.
Proof.
  nibble_check2
    (fun c1 c2 => byte_of_char (extendedByte2 c1 c2) =? 0x80 + c1 mod 4 * 16 + c2).
Qed.

Lemma extendedByte3_bits (c3 c4 : Z) :
  0 <= c3 < 16 -> 0 <= c4 < 16 ->
  byte_of_char (extendedByte3 c3 c4) = 0x80 + c3 * 4 + c4 / 4.
Proof.
  nibble_check2
    (fun c3 c4 => byte_of_char (extendedByte3 c3 c4) =? 0x80 + c3 * 4 + c4 / 4).
Qed.

Lemma extendedByte4_bits (c4 c5 : Z) :
  0 <= c4 < 16 -> 0 <= c5 < 16 ->
  byte_of_char (extendedByte4 c4 c5) = 0x80 + c4 mod 4 * 16 + c5.
Proof.
  nibble_check2
    (fun c4 c5 => byte_of_char (extendedByte4 c4 c5) =? 0x80 + c4 mod 4 * 16 + c5).
Qed.

Lemma extendedByte1_regrouping (c0 c1 : Z) :
  0 <= c0 < 16 -> 0 <= c1 < 16 ->
  extendedByte1 c0 c1 = extendedByte1_regrouped c0 c1.
Proof.
  nibble_check2
    (fun c0 c1 => extendedByte1 c0 c1 =? extendedByte1_regrouped c0 c1).
Qed.

End ByteFacts.

(** ** Facts about the classifier *)

Section ClassifierFacts.

Ltac classify :=
  unfold utf8CodePointType;
  repeat match goal with
         | |- context [?a >=? ?b] => destruct (Z.geb_spec a b)
         | |- context [?a <=? ?b] => destruct (Z.leb_spec a b)
         | |- context [?a <? ?b] => destruct (Z.ltb_spec a b)
         | |- context [?a >? ?b] => destruct (Z.gtb_spec a b)
         end;
  cbn [andb orb]; try reflexivity; try lia.

Lemma classify_Ascii (cp : Z) :
  0 <= cp <= 0x7F -> utf8CodePointType cp = Ascii.
Proof. intros H. classify. Qed.

Lemma classify_Latin (cp : Z) :
  0x80 <= cp <= 0x7FF -> utf8CodePointType cp = Latin.
Proof. intros H. classify. Qed.

Lemma classify_MultiLingual (cp : Z) :
  0x800 <= cp <= 0xD7FF \/ 0xE000 <= cp <= 0xFFFF ->
  utf8CodePointType cp = MultiLingual.
Proof. intros H. classify. Qed.

Lemma classify_Extended (cp : Z) :
  0x10000 <= cp <= 0x10FFFF -> utf8CodePointType cp = Extended.
Proof. intros H. classify. Qed.

Lemma classify_Invalid (cp : Z) :
  cp < 0 \/ 0xD800 <= cp <= 0xDFFF \/ 0x10FFFF < cp ->
  utf8CodePointType cp = Invalid.
Proof. intros H. classify. Qed.

Lemma classify_Invalid_inv (cp : Z) :
  utf8CodePointType cp = Invalid ->
  cp < 0 \/ 0xD800 <= cp <= 0xDFFF \/ 0x10FFFF < cp.
Proof.
  intros H.
  destruct (Z.lt_ge_cases cp 0) as [Hneg | Hpos]; [now left |].
  destruct (Z.le_gt_cases cp 0x7F) as [H1 | H1];
    [rewrite classify_Ascii in H by lia; discriminate |].
  destruct (Z.le_gt_cases cp 0x7FF) as [H2 | H2];
    [rewrite classify_Latin in H by lia; discriminate |].
  destruct (Z.le_gt_cases cp 0xD7FF) as [H3 | H3];
    [rewrite classify_MultiLingual in H by lia; discriminate |].
  destruct (Z.le_gt_cases cp 0xDFFF) as [H4 | H4]; [right; left; lia |].
  destruct (Z.le_gt_cases cp 0xFFFF) as [H5 | H5];
    [rewrite classify_MultiLingual in H by lia; discriminate |].
  destruct (Z.le_gt_cases cp 0x10FFFF) as [H6 | H6];
    [rewrite classify_Extended in H by lia; discriminate |].
  right; right; exact H6.
Qed.

End ClassifierFacts.

(** ** Facts about the encoder *)

Section EncoderFacts.

Lemma nibbleAt_digits (s : string) (i : nat) :
  nibbleAt s i = nth_error (digits s) i.
Proof.
  unfold nibbleAt. revert i.
  induction s as [| a s IH]; intros [| i]; try reflexivity.
  rewrite digits_cons. cbn [String.get nth_error]. apply IH.
Qed.

Lemma digits_range (s : string) :
  all_hex_digits s = true -> Forall (fun d => 0 <= d < 16) (digits s).
Proof.
  induction s as [| a s IH]; intros Hall.
  - constructor.
  - rewrite all_hex_digits_cons in Hall. apply andb_true_iff in Hall.
    rewrite digits_cons. constructor.
    + apply hexCharToByte_digit, Hall.
    + apply IH, Hall.
Qed.

Lemma convert_int32 (z : Z) : convert int32_t (to_int z) = to_int z.
Proof.
  change (convert int32_t (to_int z)) with (to_int (to_int z)).
  apply to_int_small, to_int_range.
Qed.

(** What an accepted input of the encoder looks like. *)
Lemma hexCharToValue_int32_inv (s : string) (cp : Z) :
  hexCharToValue int32_t s = Some cp ->
  valid_length int32_t s = true
  /\ all_hex_digits s = true
  /\ cp = to_int (be_sum (digits s)).
Proof.
  rewrite hexCharToValue_char.
  destruct (valid_length int32_t s); cbn [andb]; [| discriminate].
  destruct (all_hex_digits s); [| discriminate].
  rewrite convert_int32. intros [= <-]. auto.
Qed.

Lemma parse4 (s : string) (cp : Z) :
  String.length s = 4%nat ->
  hexCharToValue int32_t s = Some cp ->
  exists d0 d1 d2 d3,
    digits s = [d0; d1; d2; d3]
    /\ (0 <= d0 < 16 /\ 0 <= d1 < 16 /\ 0 <= d2 < 16 /\ 0 <= d3 < 16)
    /\ cp = d0 * 4096 + d1 * 256 + d2 * 16 + d3.
Proof.
  intros Hlen Hparse.
  apply hexCharToValue_int32_inv in Hparse as (_ & Hall & ->).
  pose proof (digits_range s Hall) as Hran.
  pose proof (digits_length s) as Hdl. rewrite Hlen in Hdl.
  destruct (digits s) as [| d0 [| d1 [| d2 [| d3 [| d4 ds]]]]];
    try discriminate Hdl.
  inversion Hran as [| ? ? H0 Hran1]; subst.
  inversion Hran1 as [| ? ? H1 Hran2]; subst.
  inversion Hran2 as [| ? ? H2 Hran3]; subst.
  inversion Hran3 as [| ? ? H3 _]; subst.
  exists d0, d1, d2, d3. repeat split; try lia.
  cbn [be_sum List.length]. simpl Z.of_nat.
  change (16 ^ 3) with 4096. change (16 ^ 2) with 256.
  change (16 ^ 1) with 16. change (16 ^ 0) with 1.
  rewrite to_int_small; [lia | change (2 ^ 31) with 2147483648; lia].
Qed.

Lemma parse6 (s : string) (cp : Z) :
  String.length s = 6%nat ->
  hexCharToValue int32_t s = Some cp ->
  exists d0 d1 d2 d3 d4 d5,
    digits s = [d0; d1; d2; d3; d4; d5]
    /\ (0 <= d0 < 16 /\ 0 <= d1 < 16 /\ 0 <= d2 < 16
        /\ 0 <= d3 < 16 /\ 0 <= d4 < 16 /\ 0 <= d5 < 16)
    /\ cp = d0 * 1048576 + d1 * 65536 + d2 * 4096 + d3 * 256 + d4 * 16 + d5.
Proof.
  intros Hlen Hparse.
  apply hexCharToValue_int32_inv in Hparse as (_ & Hall & ->).
  pose proof (digits_range s Hall) as Hran.
  pose proof (digits_length s) as Hdl. rewrite Hlen in Hdl.
  destruct (digits s) as [| d0 [| d1 [| d2 [| d3 [| d4 [| d5 [| d6 ds]]]]]]];
    try discriminate Hdl.
  inversion Hran as [| ? ? H0 Hran1]; subst.
  inversion Hran1 as [| ? ? H1 Hran2]; subst.
  inversion Hran2 as [| ? ? H2 Hran3]; subst.
  inversion Hran3 as [| ? ? H3 Hran4]; subst.
  inversion Hran4 as [| ? ? H4 Hran5]; subst.
  inversion Hran5 as [| ? ? H5 _]; subst.
  exists d0, d1, d2, d3, d4, d5. repeat split; try lia.
  cbn [be_sum List.length]. simpl Z.of_nat.
  change (16 ^ 5) with 1048576. change (16 ^ 4) with 65536.
  change (16 ^ 3) with 4096. change (16 ^ 2) with 256.
  change (16 ^ 1) with 16. change (16 ^ 0) with 1.
  rewrite to_int_small; [lia | change (2 ^ 31) with 2147483648; lia].
Qed.

(** The encoder on every input whose digits are known, by plane. *)
Lemma encode_Ascii (s : string) (cp : Z) :
  hexCharToValue int32_t s = Some cp -> 0 <= cp <= 0x7F ->
  encode s = Some [cp].
Proof.
  intros Hparse Hcp. unfold encode, hexCodepointToUtf8String.
  rewrite Hparse, classify_Ascii by exact Hcp.
  cbn [option_map map]. rewrite to_char_small by lia.
  unfold byte_of_char, wrap_unsigned. change (2 ^ 8) with 256.
  rewrite Z.mod_small by lia. reflexivity.
Qed.

Lemma encode_Latin (s : string) (cp d0 d1 d2 d3 : Z) (ds : list Z) :
  hexCharToValue int32_t s = Some cp -> 0x80 <= cp <= 0x7FF ->
  digits s = d0 :: d1 :: d2 :: d3 :: ds ->
  encode s = Some [byte_of_char (latinByte1 d1 d2);
                   byte_of_char (latinByte2 d2 d3)].
Proof.
  intros Hparse Hcp Hds. unfold encode, hexCodepointToUtf8String.
  rewrite Hparse, classify_Latin by exact Hcp.
  rewrite !nibbleAt_digits, Hds. reflexivity.
Qed.

Lemma encode_MultiLingual (s : string) (cp d0 d1 d2 d3 : Z) (ds : list Z) :
  hexCharToValue int32_t s = Some cp ->
  0x800 <= cp <= 0xD7FF \/ 0xE000 <= cp <= 0xFFFF ->
  digits s = d0 :: d1 :: d2 :: d3 :: ds ->
  encode s = Some [byte_of_char (multiLingByte1 d0);
                   byte_of_char (multiLingByte2 d1 d2);
                   byte_of_char (multiLingByte3 d2 d3)].
Proof.
  intros Hparse Hcp Hds. unfold encode, hexCodepointToUtf8String.
  rewrite Hparse, classify_MultiLingual by exact Hcp.
  rewrite !nibbleAt_digits, Hds. reflexivity.
Qed.

Lemma encode_Extended (s : string) (cp d0 d1 d2 d3 d4 d5 : Z) (ds : list Z) :
  hexCharToValue int32_t s = Some cp -> 0x10000 <= cp <= 0x10FFFF ->
  digits s = d0 :: d1 :: d2 :: d3 :: d4 :: d5 :: ds ->
  encode s = Some [byte_of_char (extendedByte1 d0 d1);
                   byte_of_char (extendedByte2 d1 d2);
                   byte_of_char (extendedByte3 d3 d4);
                   byte_of_char (extendedByte4 d4 d5)].
Proof.
  intros Hparse Hcp Hds. unfold encode, hexCodepointToUtf8String.
  rewrite Hparse, classify_Extended by exact Hcp.
  rewrite !nibbleAt_digits, Hds. reflexivity.
Qed.

Lemma encode_Invalid (s : string) (cp : Z) :
  hexCharToValue int32_t s = Some cp ->
  cp < 0 \/ 0xD800 <= cp <= 0xDFFF \/ 0x10FFFF < cp ->
  encode s = Some [].
Proof.
  intros Hparse Hcp. unfold encode, hexCodepointToUtf8String.
  rewrite Hparse, classify_Invalid by exact Hcp. reflexivity.
Qed.

Lemma encode_unparsed (s : string) :
  hexCharToValue int32_t s = None -> encode s = Some [].
Proof.
  intros Hparse. unfold encode, hexCodepointToUtf8String.
  rewrite Hparse. reflexivity.
Qed.

End EncoderFacts.

(** ** Facts about the reference decoder *)

Section DecoderFacts.

Ltac decide_bools :=
  repeat match goal with
         | |- context [?a <=? ?b] => destruct (Z.leb_spec a b); try lia
         | |- context [?a <? ?b] => destruct (Z.ltb_spec a b); try lia
         end;
  cbn [andb orb]; try reflexivity.

Lemma utf8_decode_1 (b1 : Z) :
  0 <= b1 <= 0x7F -> utf8_decode [b1] = Some b1.
Proof. intros H. unfold utf8_decode. decide_bools. Qed.

Lemma utf8_decode_2 (b1 b2 : Z) :
  0xC2 <= b1 <= 0xDF -> 0x80 <= b2 <= 0xBF ->
  utf8_decode [b1; b2] = Some ((b1 - 0xC0) * 64 + (b2 - 0x80)).
Proof. intros H1 H2. unfold utf8_decode, is_continuation. decide_bools. Qed.

Lemma utf8_decode_3 (b1 b2 b3 : Z) :
  0xE0 <= b1 <= 0xEF -> 0x80 <= b2 <= 0xBF -> 0x80 <= b3 <= 0xBF ->
  let cp := (b1 - 0xE0) * 4096 + (b2 - 0x80) * 64 + (b3 - 0x80) in
  0x800 <= cp -> ~ (0xD800 <= cp <= 0xDFFF) ->
  utf8_decode [b1; b2; b3] = Some cp.
Proof.
  intros H1 H2 H3 cp Hlo Hsur. subst cp.
  unfold utf8_decode, is_continuation. cbv zeta. decide_bools.
Qed.

Lemma utf8_decode_4 (b1 b2 b3 b4 : Z) :
  0xF0 <= b1 <= 0xF4 -> 0x80 <= b2 <= 0xBF -> 0x80 <= b3 <= 0xBF ->
  0x80 <= b4 <= 0xBF ->
  let cp := (b1 - 0xF0) * 262144 + (b2 - 0x80) * 4096
            + (b3 - 0x80) * 64 + (b4 - 0x80) in
  0x10000 <= cp <= 0x10FFFF ->
  utf8_decode [b1; b2; b3; b4] = Some cp.
Proof.
  intros H1 H2 H3 H4 cp Hcp. subst cp.
  unfold utf8_decode, is_continuation. cbv zeta. decide_bools.
Qed.

End DecoderFacts.

(** ** Encoding followed by decoding *)

Section RoundTrip.

(** Four digits, any legal code point they can denote. *)
Lemma roundtrip4 (s : string) (cp : Z) :
  String.length s = 4%nat ->
  hexCharToValue int32_t s = Some cp ->
  legal_code_point cp ->
  exists bs, encode s = Some bs /\ utf8_decode bs = Some cp.
Proof.
  intros Hlen Hparse [Hran Hsur].
  destruct (parse4 s cp Hlen Hparse)
    as (d0 & d1 & d2 & d3 & Hds & (H0 & H1 & H2 & H3) & Hcp).
  destruct (Z.le_gt_cases cp 0x7F) as [Ha | Ha].
  { exists [cp]. split; [apply encode_Ascii; [exact Hparse | lia] |].
    apply utf8_decode_1. lia. }
  destruct (Z.le_gt_cases cp 0x7FF) as [Hl | Hl].
  { eexists. split; [eapply encode_Latin; [exact Hparse | lia | exact Hds] |].
    rewrite latinByte1_bits, latinByte2_bits by assumption.
    rewrite utf8_decode_2; [f_equal | |]; Z.div_mod_to_equations; lia. }
  eexists. split.
  { eapply encode_MultiLingual; [exact Hparse | lia | exact Hds]. }
  rewrite multiLingByte1_bits, multiLingByte2_bits, multiLingByte3_bits
    by assumption.
  assert (Heq : (0xE0 + d0 - 0xE0) * 4096 + (0x80 + d1 * 4 + d2 / 4 - 0x80) * 64
                + (0x80 + d2 mod 4 * 16 + d3 - 0x80) = cp)
    by (Z.div_mod_to_equations; lia).
  rewrite utf8_decode_3; cbv zeta; rewrite ?Heq;
    try reflexivity; try lia; Z.div_mod_to_equations; lia.
Qed.

(** Six digits that denote a code point above U+FFFF. *)
Lemma roundtrip6 (s : string) (cp : Z) :
  String.length s = 6%nat ->
  hexCharToValue int32_t s = Some cp ->
  0x10000 <= cp <= 0x10FFFF ->
  exists bs, encode s = Some bs /\ utf8_decode bs = Some cp.
Proof.
  intros Hlen Hparse Hran.
  destruct (parse6 s cp Hlen Hparse)
    as (d0 & d1 & d2 & d3 & d4 & d5 & Hds & (H0 & H1 & H2 & H3 & H4 & H5) & Hcp).
  eexists. split.
  { eapply encode_Extended; [exact Hparse | lia | exact Hds]. }
  rewrite extendedByte1_bits, extendedByte2_bits, extendedByte3_bits,
    extendedByte4_bits by assumption.
  assert (Heq : (0xF0 + d0 mod 2 * 4 + d1 / 4 - 0xF0) * 262144
                + (0x80 + d1 mod 4 * 16 + d2 - 0x80) * 4096
                + (0x80 + d3 * 4 + d4 / 4 - 0x80) * 64
                + (0x80 + d4 mod 4 * 16 + d5 - 0x80) = cp)
    by (Z.div_mod_to_equations; lia).
  rewrite utf8_decode_4; cbv zeta; rewrite ?Heq;
    try reflexivity; try lia; Z.div_mod_to_equations; lia.
Qed.

(** [hex cp] is accepted by the parser and denotes [cp]. *)
Lemma hex_parses (cp : Z) :
  0 <= cp <= 0x10FFFF ->
  hexCharToValue int32_t (hex cp) = Some cp
  /\ String.length (hex cp) = if cp <=? 0xFFFF then 4%nat else 6%nat.
Proof.
  intros Hcp. rewrite hexCharToValue_char. unfold hex.
  destruct (Z.leb_spec cp 0xFFFF) as [Hle | Hgt].
  - split; [| reflexivity].
    assert (Hd : forall k, 0 <= cp / k mod 16 < 16)
      by (intros k; apply Z.mod_pos_bound; lia).
    pose proof (Z.mod_pos_bound cp 16 ltac:(lia)) as Hd0.
    destruct (hex_digit_value _ (Hd 4096)) as [Ha3 Hv3].
    destruct (hex_digit_value _ (Hd 256)) as [Ha2 Hv2].
    destruct (hex_digit_value _ (Hd 16)) as [Ha1 Hv1].
    destruct (hex_digit_value _ Hd0) as [Ha0 Hv0].
    rewrite !all_hex_digits_cons, Ha3, Ha2, Ha1, Ha0.
    rewrite !digits_cons, Hv3, Hv2, Hv1, Hv0.
    change (valid_length int32_t _) with true.
    cbn [andb all_hex_digits list_ascii_of_string forallb digits map
         be_sum List.length].
    simpl Z.of_nat.
    change (16 ^ 3) with 4096. change (16 ^ 2) with 256.
    change (16 ^ 1) with 16. change (16 ^ 0) with 1.
    assert (Hsum : cp / 4096 mod 16 * 4096 + (cp / 256 mod 16 * 256
                   + (cp / 16 mod 16 * 16 + (cp mod 16 * 1 + 0))) = cp)
      by (Z.div_mod_to_equations; lia).
    rewrite Hsum, convert_int32, to_int_small;
      [reflexivity | change (2 ^ 31) with 2147483648; lia].
  - split; [| reflexivity].
    assert (Hd : forall k, 0 <= cp / k mod 16 < 16)
      by (intros k; apply Z.mod_pos_bound; lia).
    pose proof (Z.mod_pos_bound cp 16 ltac:(lia)) as Hd0.
    destruct (hex_digit_value _ (Hd 1048576)) as [Ha5 Hv5].
    destruct (hex_digit_value _ (Hd 65536)) as [Ha4 Hv4].
    destruct (hex_digit_value _ (Hd 4096)) as [Ha3 Hv3].
    destruct (hex_digit_value _ (Hd 256)) as [Ha2 Hv2].
    destruct (hex_digit_value _ (Hd 16)) as [Ha1 Hv1].
    destruct (hex_digit_value _ Hd0) as [Ha0 Hv0].
    rewrite !all_hex_digits_cons, Ha5, Ha4, Ha3, Ha2, Ha1, Ha0.
    rewrite !digits_cons, Hv5, Hv4, Hv3, Hv2, Hv1, Hv0.
    change (valid_length int32_t _) with true.
    cbn [andb all_hex_digits list_ascii_of_string forallb digits map
         be_sum List.length].
    simpl Z.of_nat.
    change (16 ^ 5) with 1048576. change (16 ^ 4) with 65536.
    change (16 ^ 3) with 4096. change (16 ^ 2) with 256.
    change (16 ^ 1) with 16. change (16 ^ 0) with 1.
    assert (Hsum : cp / 1048576 mod 16 * 1048576 + (cp / 65536 mod 16 * 65536
                   + (cp / 4096 mod 16 * 4096 + (cp / 256 mod 16 * 256
                   + (cp / 16 mod 16 * 16 + (cp mod 16 * 1 + 0))))) = cp)
      by (Z.div_mod_to_equations; lia).
    rewrite Hsum, convert_int32, to_int_small;
      [reflexivity | change (2 ^ 31) with 2147483648; lia].
Qed.

End RoundTrip.

(** ** When the encoder returns the empty string *)

Section FailureFacts.

Lemma all_hex_digits_false_iff (s : string) :
  all_hex_digits s = false
  <-> exists a, In a (list_ascii_of_string s) /\ is_hex_digit a = false.
Proof.
  unfold all_hex_digits. induction (list_ascii_of_string s) as [| a l IH].
  - split; [discriminate | intros (a & [] & _)].
  - cbn [forallb In]. split.
    + intros H. apply andb_false_iff in H as [H | H].
      * exists a. auto.
      * apply IH in H as (b & Hin & Hb). exists b. auto.
    + intros (b & [-> | Hin] & Hb).
      * rewrite Hb. reflexivity.
      * apply andb_false_iff. right. apply IH. exists b. auto.
Qed.

Lemma odd_length_mod (n : nat) :
  (Z.of_nat n mod 2 =? 0) = negb (Nat.odd n).
Proof.
  destruct (Nat.Even_or_Odd n) as [[m Hm] | [m Hm]].
  - assert (Ho : Nat.odd n = false).
    { rewrite <- Nat.negb_even. replace (Nat.even n) with true; [reflexivity |].
      symmetry. apply Nat.even_spec. exists m. exact Hm. }
    rewrite Ho. cbn [negb]. apply Z.eqb_eq.
    subst n. Z.div_mod_to_equations. lia.
  - assert (Ho : Nat.odd n = true) by (apply Nat.odd_spec; exists m; exact Hm).
    rewrite Ho. cbn [negb]. apply Z.eqb_neq.
    subst n. Z.div_mod_to_equations. lia.
Qed.

(** The length test for the 32-bit holder of the encoder. *)
Lemma valid_length_int32 (s : string) :
  valid_length int32_t s = false
  <-> String.length s = 0%nat \/ Nat.odd (String.length s) = true
      \/ (8 < String.length s)%nat.
Proof.
  unfold valid_length. cbv zeta. rewrite odd_length_mod.
  change (sizeofT int32_t * 2) with 8.
  destruct (Z.eqb_spec (Z.of_nat (String.length s)) 0) as [H0 | H0];
    destruct (Nat.odd (String.length s));
    destruct (Z.leb_spec (Z.of_nat (String.length s)) 8) as [H8 | H8];
    cbn [negb andb]; split; intros H; try discriminate; try reflexivity;
    try lia; try (destruct H as [H | [H | H]]; try discriminate H; lia).
Qed.

Lemma encode_empty_iff (s : string) :
  encode s = Some [] <-> hexCodepointToUtf8String s = Some [].
Proof.
  unfold encode. destruct (hexCodepointToUtf8String s) as [[| c l] |];
    cbn [option_map map]; split; intros H; try discriminate H; reflexivity.
Qed.

(** The empty string comes from the two early returns only. *)
Lemma empty_result_inv (s : string) :
  hexCodepointToUtf8String s = Some [] ->
  hexCharToValue int32_t s = None
  \/ exists cp, hexCharToValue int32_t s = Some cp
                /\ utf8CodePointType cp = Invalid.
Proof.
  unfold hexCodepointToUtf8String.
  destruct (hexCharToValue int32_t s) as [cp |]; [| auto].
  intros H. right. exists cp. split; [reflexivity |].
  destruct (utf8CodePointType cp); try reflexivity; exfalso.
  - discriminate H.
  - destruct (nibbleAt s 1), (nibbleAt s 2), (nibbleAt s 3);
      discriminate H.
  - destruct (nibbleAt s 0), (nibbleAt s 1), (nibbleAt s 2), (nibbleAt s 3);
      discriminate H.
  - destruct (nibbleAt s 0), (nibbleAt s 1), (nibbleAt s 2), (nibbleAt s 3),
      (nibbleAt s 4), (nibbleAt s 5); discriminate H.
Qed.

End FailureFacts.

(** ** The parser at an arbitrary target type *)

Section TargetTypeFacts.

Lemma valid_length_true (T : IntegralType) (s : string) :
  String.length s <> 0%nat ->
  Nat.even (String.length s) = true ->
  Z.of_nat (String.length s) <= sizeofT T * 2 ->
  valid_length T s = true.
Proof.
  intros H0 He Hl. unfold valid_length. cbv zeta.
  rewrite odd_length_mod, Nat.negb_odd, He.
  destruct (Z.eqb_spec (Z.of_nat (String.length s)) 0) as [Hz | Hz]; [lia |].
  destruct (Z.leb_spec (Z.of_nat (String.length s)) (sizeofT T * 2)); [| lia].
  reflexivity.
Qed.

Lemma valid_length_bounds (T : IntegralType) (s : string) :
  valid_length T s = true ->
  0 < Z.of_nat (String.length s) <= sizeofT T * 2.
Proof.
  unfold valid_length. cbv zeta. intros H.
  apply andb_true_iff in H as [H Hl]. apply andb_true_iff in H as [H0 _].
  apply negb_true_iff, Z.eqb_neq in H0. apply Z.leb_le in Hl. lia.
Qed.

Lemma wrap_signed_small (w z : Z) :
  1 <= w -> 0 <= z < 2 ^ (w - 1) -> wrap_signed w z = z.
Proof.
  intros Hw Hz. unfold wrap_signed.
  assert (Hpow : 2 ^ w = 2 * 2 ^ (w - 1)).
  { rewrite <- Z.pow_succ_r by lia. f_equal. lia. }
  rewrite Z.mod_small; lia.
Qed.

Lemma wrap_unsigned_small (w z : Z) :
  0 <= z < 2 ^ w -> wrap_unsigned w z = z.
Proof. intros Hz. unfold wrap_unsigned. apply Z.mod_small, Hz. Qed.

(** As many hex digits as the type has nibbles stay below [2^(8 sizeof)]. *)
Lemma digit_bound (n size : Z) :
  0 <= n <= size * 2 -> 16 ^ n <= 2 ^ (8 * size).
Proof.
  intros Hn. replace (8 * size) with (4 * (size * 2)) by lia.
  rewrite Z.pow_mul_r by lia. change (2 ^ 4) with 16.
  apply Z.pow_le_mono_r; lia.
Qed.

Lemma hexCharToValue_representable (T : IntegralType) (s : string) :
  valid_length T s = true ->
  all_hex_digits s = true ->
  sizeofT T <= 4 \/ be_sum (digits s) < 2 ^ 31 ->
  (signedT T = true -> be_sum (digits s) < 2 ^ (8 * sizeofT T - 1)) ->
  (boolT T = true -> be_sum (digits s) <= 1) ->
  hexCharToValue T s = Some (be_sum (digits s)).
Proof.
  intros Hv Hall Hfit Hsigned Hbool.
  pose proof (be_sum_bounds s Hall) as Hb.
  pose proof (valid_length_bounds T s Hv) as Hl.
  assert (Hdigits : 16 ^ Z.of_nat (String.length s) <= 2 ^ (8 * sizeofT T))
    by (apply digit_bound; lia).
  rewrite hexCharToValue_char, Hv, Hall. cbn [andb]. f_equal.
  unfold convert. destruct (boolT T).
  { (* bool: the value is 0 or 1 and stays *)
    specialize (Hbool eq_refl).
    rewrite to_int_small by (change (2 ^ 31) with 2147483648; lia).
    destruct (Z.eqb_spec (be_sum (digits s)) 0); lia. }
  clear Hbool.
  destruct (Z.lt_ge_cases (be_sum (digits s)) (2 ^ 31)) as [H31 | H31].
  - rewrite to_int_small by lia.
    destruct (signedT T).
    + apply wrap_signed_small; [lia |]. split; [lia | auto].
    + apply wrap_unsigned_small. lia.
  - (* the value needs all 32 bits: the type is four bytes wide *)
    destruct Hfit as [Hsize | Hsmall]; [| lia].
    assert (Hpow : 2 ^ (8 * sizeofT T) <= 2 ^ 32)
      by (apply Z.pow_le_mono_r; lia).
    assert (Hfour : sizeofT T = 4).
    { destruct (Z.eq_dec (sizeofT T) 4) as [E | E]; [exact E | exfalso].
      assert (Hless : 2 ^ (8 * sizeofT T) <= 2 ^ 24)
        by (apply Z.pow_le_mono_r; lia).
      change (2 ^ 24) with 16777216 in Hless.
      change (2 ^ 31) with 2147483648 in H31. lia. }
    change (2 ^ 32) with 4294967296 in Hpow.
    change (2 ^ 31) with 2147483648 in H31.
    assert (Hwrap : to_int (be_sum (digits s))
                    = be_sum (digits s) - 4294967296).
    { apply to_int_unique with (q := -1); [lia |].
      change (2 ^ 31) with 2147483648. lia. }
    rewrite Hwrap, Hfour.
    destruct (signedT T).
    + specialize (Hsigned eq_refl). rewrite Hfour in Hsigned.
      change (2 ^ (8 * 4 - 1)) with 2147483648 in Hsigned. lia.
    + unfold wrap_unsigned. change (2 ^ (8 * 4)) with 4294967296.
      rewrite Hfour in Hdigits. change (2 ^ (8 * 4)) with 4294967296 in Hdigits.
      replace (be_sum (digits s) - 4294967296)
        with (be_sum (digits s) + (-1) * 4294967296) by lia.
      rewrite Z.mod_add by lia. apply Z.mod_small. lia.
Qed.

Lemma be_sum_zeros (s : string) :
  (forall a, In a (list_ascii_of_string s) -> a = "0"%char) ->
  all_hex_digits s = true /\ be_sum (digits s) = 0.
Proof.
  induction s as [| a s IH]; intros Hz.
  - split; reflexivity.
  - assert (Ha : a = "0"%char) by (apply Hz; left; reflexivity).
    destruct IH as [Hall Hsum]; [intros b Hb; apply Hz; right; exact Hb |].
    subst a. rewrite all_hex_digits_cons, digits_cons, Hall.
    split; [reflexivity |].
    cbn [be_sum]. rewrite Hsum.
    change (hexCharToByte (char_of_ascii "0")) with 0. lia.
Qed.

End TargetTypeFacts.

(** ** Which reads of the encoder stay inside the view *)

Section ReadFacts.

Lemma nibbleAt_in_range (s : string) (i : nat) :
  (i < String.length s)%nat -> exists d, nibbleAt s i = Some d.
Proof.
  intros Hi. rewrite nibbleAt_digits.
  destruct (nth_error (digits s) i) as [d |] eqn:E; [eauto |].
  apply nth_error_None in E. rewrite digits_length in E. lia.
Qed.

Lemma nibbleAt_past_end (s : string) (i : nat) :
  (String.length s <= i)%nat -> nibbleAt s i = None.
Proof.
  intros Hi. rewrite nibbleAt_digits. apply nth_error_None.
  rewrite digits_length. exact Hi.
Qed.

(** The code point of an accepted input is bounded by its digit count. *)
Lemma parsed_bound (s : string) (cp : Z) :
  hexCharToValue int32_t s = Some cp ->
  (String.length s <= 6)%nat ->
  0 <= cp < 16 ^ Z.of_nat (String.length s).
Proof.
  intros Hparse Hlen.
  apply hexCharToValue_int32_inv in Hparse as (_ & Hall & ->).
  pose proof (be_sum_bounds s Hall) as Hb.
  assert (H16 : 16 ^ Z.of_nat (String.length s) <= 16 ^ 6)
    by (apply Z.pow_le_mono_r; lia).
  change (16 ^ 6) with 16777216 in H16.
  rewrite to_int_small; [exact Hb | change (2 ^ 31) with 2147483648; lia].
Qed.

Lemma accepted_length (s : string) (cp : Z) :
  hexCharToValue int32_t s = Some cp ->
  String.length s = 2%nat \/ String.length s = 4%nat
  \/ String.length s = 6%nat \/ String.length s = 8%nat.
Proof.
  intros Hparse.
  apply hexCharToValue_int32_inv in Hparse as (Hv & _ & _).
  destruct (valid_length_int32 s) as [_ Hfalse].
  destruct (Nat.odd (String.length s)) eqn:Hodd;
    [rewrite Hfalse in Hv by auto; discriminate Hv |].
  destruct (String.length s) as [| [| [| [| [| [| [| [| [| n]]]]]]]]];
    try discriminate Hodd; auto;
    rewrite Hfalse in Hv by (auto; right; right; lia); discriminate Hv.
Qed.

(** From four digits on, every read of the encoder is inside the view. *)
Lemma defined_from_four_digits (s : string) (cp : Z) :
  hexCharToValue int32_t s = Some cp ->
  (4 <= String.length s)%nat ->
  exists res, hexCodepointToUtf8String s = Some res.
Proof.
  intros Hparse Hlen. unfold hexCodepointToUtf8String. rewrite Hparse.
  destruct (nibbleAt_in_range s 0 ltac:(lia)) as [d0 E0].
  destruct (nibbleAt_in_range s 1 ltac:(lia)) as [d1 E1].
  destruct (nibbleAt_in_range s 2 ltac:(lia)) as [d2 E2].
  destruct (nibbleAt_in_range s 3 ltac:(lia)) as [d3 E3].
  destruct (utf8CodePointType cp) eqn:Hplane; try (eexists; reflexivity).
  - rewrite E1, E2, E3. eexists. reflexivity.
  - rewrite E0, E1, E2, E3. eexists. reflexivity.
  - assert (Hsix : (6 <= String.length s)%nat).
    { destruct (accepted_length s cp Hparse) as [H | [H | [H | H]]];
        try lia.
      pose proof (parsed_bound s cp Hparse ltac:(lia)) as Hb.
      rewrite H in Hb. change (16 ^ Z.of_nat 4) with 65536 in Hb.
      destruct (Z.le_gt_cases cp 0xFFFF) as [Hle | Hgt]; [| lia].
      destruct (Z.le_gt_cases cp 0x7F) as [Ha | Ha];
        [rewrite classify_Ascii in Hplane by lia; discriminate |].
      destruct (Z.le_gt_cases cp 0x7FF) as [Hl | Hl];
        [rewrite classify_Latin in Hplane by lia; discriminate |].
      destruct (Z.le_gt_cases cp 0xD7FF) as [Hm | Hm];
        [rewrite classify_MultiLingual in Hplane by lia; discriminate |].
      destruct (Z.le_gt_cases cp 0xDFFF) as [Hs | Hs];
        [rewrite classify_Invalid in Hplane by lia; discriminate |].
      rewrite classify_MultiLingual in Hplane by lia; discriminate. }
    destruct (nibbleAt_in_range s 4 ltac:(lia)) as [d4 E4].
    destruct (nibbleAt_in_range s 5 ltac:(lia)) as [d5 E5].
    rewrite E0, E1, E2, E3, E4, E5. eexists. reflexivity.
Qed.

(** The encoder reads past the end on exactly the two-digit inputs that
    denote [0x80 .. 0xFF]. *)
Lemma read_past_end_iff (s : string) :
  hexCodepointToUtf8String s = None
  <-> String.length s = 2%nat
      /\ exists cp, hexCharToValue int32_t s = Some cp /\ 0x80 <= cp <= 0xFF.
Proof.
  split.
  - intros Hnone.
    destruct (hexCharToValue int32_t s) as [cp |] eqn:Hparse;
      [| unfold hexCodepointToUtf8String in Hnone; rewrite Hparse in Hnone;
         discriminate Hnone].
    destruct (accepted_length s cp Hparse) as [H | H].
    + split; [exact H |]. exists cp. split; [reflexivity |].
      pose proof (parsed_bound s cp Hparse ltac:(lia)) as Hb.
      rewrite H in Hb. change (16 ^ Z.of_nat 2) with 256 in Hb.
      destruct (Z.le_gt_cases cp 0x7F) as [Ha | Ha]; [| lia].
      unfold hexCodepointToUtf8String in Hnone.
      rewrite Hparse, classify_Ascii in Hnone by lia. discriminate Hnone.
    + destruct (defined_from_four_digits s cp Hparse ltac:(lia)) as [res Hres].
      rewrite Hres in Hnone. discriminate Hnone.
  - intros (Hlen & cp & Hparse & Hcp).
    unfold hexCodepointToUtf8String.
    rewrite Hparse, classify_Latin by lia.
    destruct (nibbleAt_in_range s 1 ltac:(lia)) as [d1 E1].
    rewrite E1, (nibbleAt_past_end s 2) by lia. reflexivity.
Qed.

End ReadFacts.

(** * The claims of the specification *)

(** C1.  Every six-digit hex string that parses to a code point of the
    Extended plane, [0x10000 .. 0x10FFFF], is encoded as exactly four bytes
    laid out as [11110uvv 10vvwwww 10xxxxyy 10yyzzzz], where [u v w x y z]
    are the six nibbles of the input in order (of [u] only the low bit, which
    is all of it here).  In particular ["010000"] gives [F0 90 80 80] and
    ["10FFFF"] gives [F4 8F BF BF].  The cast of the first byte that closes
    before the last [|] produces the same [char] as the regrouped
    expression, so the anomaly changes no bit. *)
Theorem C1_extended_four_bytes :
  (forall (s : string) (cp : Z),
      String.length s = 6%nat ->
      hexCharToValue int32_t s = Some cp ->
      0x10000 <= cp <= 0x10FFFF ->
      exists u v w x y z,
        digits s = [u; v; w; x; y; z]
        /\ 0 <= u <= 1
        /\ encode s = Some [0xF0 + u mod 2 * 4 + v / 4;
                            0x80 + v mod 4 * 16 + w;
                            0x80 + x * 4 + y / 4;
                            0x80 + y mod 4 * 16 + z])
  /\ encode "010000" = Some [0xF0; 0x90; 0x80; 0x80]
  /\ encode "10FFFF" = Some [0xF4; 0x8F; 0xBF; 0xBF]
  /\ (forall c0 c1 : Z,
         0 <= c0 < 16 -> 0 <= c1 < 16 ->
         extendedByte1 c0 c1 = extendedByte1_regrouped c0 c1).
Proof.
  split; [| split; [| split]].
  - intros s cp Hlen Hparse Hcp.
    destruct (parse6 s cp Hlen Hparse)
      as (u & v & w & x & y & z & Hds & (Hu & Hv & Hw & Hx & Hy & Hz) & Heq).
    exists u, v, w, x, y, z. split; [exact Hds |]. split; [lia |].
    rewrite (encode_Extended s cp u v w x y z [] Hparse Hcp Hds).
    rewrite extendedByte1_bits, extendedByte2_bits, extendedByte3_bits,
      extendedByte4_bits by assumption.
    reflexivity.
  - vm_compute. reflexivity.
  - vm_compute. reflexivity.
  - exact extendedByte1_regrouping.
Qed.

Lemma C1_extended_four_bytes_witness :
  exists u v w x y z,
    digits "03B1A2" = [u; v; w; x; y; z]
    /\ 0 <= u <= 1
    /\ encode "03B1A2" = Some [0xF0 + u mod 2 * 4 + v / 4;
                               0x80 + v mod 4 * 16 + w;
                               0x80 + x * 4 + y / 4;
                               0x80 + y mod 4 * 16 + z].
Proof.
  apply (proj1 C1_extended_four_bytes "03B1A2" 0x3B1A2).
  - reflexivity.
  - vm_compute. reflexivity.
  - lia.
Defined.

(** C2, as the specification states it, fails: the six-digit string
    ["000080"] is accepted, parses to [0x80], and is encoded as [C0 80],
    which no UTF-8 decoder reads back as [0x80]; the two-digit string ["80"]
    parses to [0x80] as well and makes the encoder read past its end. *)
Lemma C2_counterexample :
  hexCharToValue int32_t "000080" = Some 0x80
  /\ encode "000080" = Some [0xC0; 0x80]
  /\ utf8_decode [0xC0; 0x80] = None
  /\ hexCharToValue int32_t "80" = Some 0x80
  /\ encode "80" = None
  /\ ~ (forall (s : string) (cp : Z),
           hexCharToValue int32_t s = Some cp ->
           0x80 <= cp <= 0x7FF ->
           exists b1 b2,
             encode s = Some [b1; b2]
             /\ b1 / 32 = 6 /\ b2 / 64 = 2
             /\ utf8_decode [b1; b2] = Some cp).
Proof.
  assert (Henc6 : encode "000080" = Some [0xC0; 0x80])
    by (vm_compute; reflexivity).
  assert (Hdec6 : utf8_decode [0xC0; 0x80] = None)
    by (vm_compute; reflexivity).
  assert (Hparse6 : hexCharToValue int32_t "000080" = Some 0x80)
    by (vm_compute; reflexivity).
  split; [exact Hparse6 |]. split; [exact Henc6 |]. split; [exact Hdec6 |].
  split; [vm_compute; reflexivity |]. split; [vm_compute; reflexivity |].
  intros H.
  destruct (H "000080" 0x80 Hparse6 ltac:(lia))
    as (b1 & b2 & Henc & _ & _ & Hdec).
  rewrite Henc6 in Henc. injection Henc as <- <-.
  rewrite Hdec6 in Hdec. discriminate Hdec.
Qed.

(** C2, amended.  For every accepted four-digit hex string whose code
    point lies in [0x80 .. 0x7FF], the encoder returns exactly two bytes,
    the first with the lead prefix [110] and the second with the
    continuation prefix [10], and the reference decoder recovers the code
    point from them. *)
Theorem C2_latin_two_bytes (s : string) (cp : Z) :
  String.length s = 4%nat ->
  hexCharToValue int32_t s = Some cp ->
  0x80 <= cp <= 0x7FF ->
  exists b1 b2,
    encode s = Some [b1; b2]
    /\ b1 / 32 = 6 /\ b2 / 64 = 2
    /\ utf8_decode [b1; b2] = Some cp.
Proof.
  intros Hlen Hparse Hcp.
  destruct (parse4 s cp Hlen Hparse)
    as (d0 & d1 & d2 & d3 & Hds & (H0 & H1 & H2 & H3) & Heq).
  exists (0xC0 + d1 mod 8 * 4 + d2 / 4), (0x80 + d2 mod 4 * 16 + d3).
  split.
  { rewrite (encode_Latin s cp d0 d1 d2 d3 [] Hparse Hcp Hds).
    rewrite latinByte1_bits, latinByte2_bits by assumption. reflexivity. }
  split; [Z.div_mod_to_equations; lia |].
  split; [Z.div_mod_to_equations; lia |].
  rewrite utf8_decode_2; [f_equal | |]; Z.div_mod_to_equations; lia.
Qed.

Lemma C2_latin_two_bytes_witness :
  exists b1 b2,
    encode "00E9" = Some [b1; b2]
    /\ b1 / 32 = 6 /\ b2 / 64 = 2
    /\ utf8_decode [b1; b2] = Some 0xE9.
Proof.
  apply (C2_latin_two_bytes "00E9" 0xE9).
  - reflexivity.
  - vm_compute. reflexivity.
  - lia.
Defined.

(** C3.  Round trip: for every code point of [0 .. 0x10FFFF] outside the
    surrogate range, encoding its hex-string representation and decoding
    the bytes with the reference decoder gives the code point back.  The
    same holds for every accepted spelling of the code point, in either
    letter case, with four digits up to U+FFFF and six digits above. *)
Theorem C3_round_trip :
  (forall cp : Z,
      0 <= cp <= 0x10FFFF ->
      ~ (0xD800 <= cp <= 0xDFFF) ->
      exists bs, encode (hex cp) = Some bs /\ utf8_decode bs = Some cp)
  /\ (forall (s : string) (cp : Z),
         hexCharToValue int32_t s = Some cp ->
         0 <= cp <= 0x10FFFF ->
         ~ (0xD800 <= cp <= 0xDFFF) ->
         String.length s = (if cp <=? 0xFFFF then 4%nat else 6%nat) ->
         exists bs, encode s = Some bs /\ utf8_decode bs = Some cp).
Proof.
  assert (Hgen : forall (s : string) (cp : Z),
             hexCharToValue int32_t s = Some cp ->
             0 <= cp <= 0x10FFFF ->
             ~ (0xD800 <= cp <= 0xDFFF) ->
             String.length s = (if cp <=? 0xFFFF then 4%nat else 6%nat) ->
             exists bs, encode s = Some bs /\ utf8_decode bs = Some cp).
  { intros s cp Hparse Hran Hsur Hlen.
    destruct (Z.leb_spec cp 0xFFFF) as [Hle | Hgt].
    - apply roundtrip4; [exact Hlen | exact Hparse | split; assumption].
    - apply roundtrip6; [exact Hlen | exact Hparse | lia]. }
  split; [| exact Hgen].
  intros cp Hran Hsur.
  destruct (hex_parses cp Hran) as [Hparse Hlen].
  apply Hgen; assumption.
Qed.

Lemma C3_round_trip_witness :
  exists bs, encode (hex 0x20AC) = Some bs /\ utf8_decode bs = Some 0x20AC.
Proof.
  apply (proj1 C3_round_trip 0x20AC); lia.
Defined.

(** C4.  At the surrogate boundary: ["D7FF"] and ["E000"] are encoded as
    three bytes, ["D800"] and ["DFFF"] give the empty result; and among the
    accepted four-digit strings the empty result is returned for exactly
    the surrogate code points. *)
Theorem C4_surrogate_boundary :
  encode "D7FF" = Some [0xED; 0x9F; 0xBF]
  /\ encode "E000" = Some [0xEE; 0x80; 0x80]
  /\ encode "D800" = Some []
  /\ encode "DFFF" = Some []
  /\ (forall (s : string) (cp : Z),
         String.length s = 4%nat ->
         hexCharToValue int32_t s = Some cp ->
         (encode s = Some [] <-> 0xD800 <= cp <= 0xDFFF)).
Proof.
  split; [vm_compute; reflexivity |].
  split; [vm_compute; reflexivity |].
  split; [vm_compute; reflexivity |].
  split; [vm_compute; reflexivity |].
  intros s cp Hlen Hparse.
  destruct (parse4 s cp Hlen Hparse) as (d0 & d1 & d2 & d3 & _ & Hr & Heq).
  split.
  - intros Hempty.
    destruct (Z.lt_ge_cases cp 0xD800) as [Hlo | Hlo].
    { destruct (roundtrip4 s cp Hlen Hparse) as (bs & Henc & Hdec);
        [split; lia |].
      rewrite Henc in Hempty. injection Hempty as ->. discriminate Hdec. }
    destruct (Z.le_gt_cases cp 0xDFFF) as [Hhi | Hhi]; [lia |].
    destruct (roundtrip4 s cp Hlen Hparse) as (bs & Henc & Hdec);
      [split; lia |].
    rewrite Henc in Hempty. injection Hempty as ->. discriminate Hdec.
  - intros Hsur. apply (encode_Invalid s cp); [exact Hparse | lia].
Qed.

Lemma C4_surrogate_boundary_witness :
  encode "DABC" = Some [] <-> 0xD800 <= 0xDABC <= 0xDFFF.
Proof.
  apply (proj2 (proj2 (proj2 (proj2 C4_surrogate_boundary))) "DABC" 0xDABC).
  - reflexivity.
  - vm_compute. reflexivity.
Defined.

(** C5.  The classifier is total on the 32-bit integers and follows the
    decision table exactly: each plane is returned on its ranges of the
    table and nowhere else, and [Invalid] is returned for the negative
    values, the surrogates and the values above [0x10FFFF]. *)
Theorem C5_classifier_table (cp : Z) :
  - 2 ^ 31 <= cp < 2 ^ 31 ->
  (utf8CodePointType cp = Ascii <-> 0 <= cp <= 0x7F)
  /\ (utf8CodePointType cp = Latin <-> 0x80 <= cp <= 0x7FF)
  /\ (utf8CodePointType cp = MultiLingual
      <-> 0x800 <= cp <= 0xD7FF \/ 0xE000 <= cp <= 0xFFFF)
  /\ (utf8CodePointType cp = Extended <-> 0x10000 <= cp <= 0x10FFFF)
  /\ (utf8CodePointType cp = Invalid
      <-> cp < 0 \/ 0xD800 <= cp <= 0xDFFF \/ 0x10FFFF < cp).
Proof.
  intros _.
  assert (Hcases : 0 <= cp <= 0x7F \/ 0x80 <= cp <= 0x7FF
                   \/ (0x800 <= cp <= 0xD7FF \/ 0xE000 <= cp <= 0xFFFF)
                   \/ 0x10000 <= cp <= 0x10FFFF
                   \/ (cp < 0 \/ 0xD800 <= cp <= 0xDFFF \/ 0x10FFFF < cp))
    by lia.
  destruct Hcases as [H | [H | [H | [H | H]]]].
  - rewrite (classify_Ascii cp H).
    repeat split; intros; try discriminate; try lia; reflexivity.
  - rewrite (classify_Latin cp H).
    repeat split; intros; try discriminate; try lia; reflexivity.
  - rewrite (classify_MultiLingual cp H).
    repeat split; intros; try discriminate; try lia; reflexivity.
  - rewrite (classify_Extended cp H).
    repeat split; intros; try discriminate; try lia; reflexivity.
  - rewrite (classify_Invalid cp H).
    repeat split; intros; try discriminate; try lia; reflexivity.
Qed.

Lemma C5_classifier_table_witness :
  (utf8CodePointType 0xD800 = Ascii <-> 0 <= 0xD800 <= 0x7F)
  /\ (utf8CodePointType 0xD800 = Latin <-> 0x80 <= 0xD800 <= 0x7FF)
  /\ (utf8CodePointType 0xD800 = MultiLingual
      <-> 0x800 <= 0xD800 <= 0xD7FF \/ 0xE000 <= 0xD800 <= 0xFFFF)
  /\ (utf8CodePointType 0xD800 = Extended <-> 0x10000 <= 0xD800 <= 0x10FFFF)
  /\ (utf8CodePointType 0xD800 = Invalid
      <-> 0xD800 < 0 \/ 0xD800 <= 0xD800 <= 0xDFFF \/ 0x10FFFF < 0xD800).
Proof.
  apply (C5_classifier_table 0xD800). simpl. lia.
Defined.

(** C6.  The encoder returns the empty result exactly when the input is
    empty or of odd length, or longer than the eight digits of the 32-bit
    holder, or contains a character outside [0-9a-fA-F], or parses to a
    code point outside [0 .. 0x10FFFF] or inside the surrogate range.  In
    particular [""], ["1"], ["GG"] and every nine-character string fail.
    The failure result carries no byte at all. *)
Theorem C6_failure_conditions :
  (forall s : string,
      encode s = Some []
      <-> (String.length s = 0%nat
           \/ Nat.odd (String.length s) = true
           \/ (8 < String.length s)%nat
           \/ (exists a, In a (list_ascii_of_string s) /\ is_hex_digit a = false)
           \/ (exists cp, hexCharToValue int32_t s = Some cp
                          /\ (cp < 0 \/ 0x10FFFF < cp
                              \/ 0xD800 <= cp <= 0xDFFF))))
  /\ encode "" = Some []
  /\ encode "1" = Some []
  /\ encode "GG" = Some []
  /\ (forall s : string, String.length s = 9%nat -> encode s = Some []).
Proof.
  assert (Hlen : forall s, valid_length int32_t s = false -> encode s = Some []).
  { intros s Hv. apply encode_unparsed.
    rewrite hexCharToValue_char, Hv. reflexivity. }
  split; [| split; [| split; [| split]]].
  - intros s. split.
    + intros Hempty. apply encode_empty_iff, empty_result_inv in Hempty.
      destruct Hempty as [Hnone | (cp & Hparse & Hinv)].
      * rewrite hexCharToValue_char in Hnone.
        destruct (valid_length int32_t s) eqn:Hv.
        -- destruct (all_hex_digits s) eqn:Hall; [discriminate Hnone |].
           right; right; right; left.
           apply all_hex_digits_false_iff, Hall.
        -- apply valid_length_int32 in Hv. tauto.
      * right; right; right; right. exists cp. split; [exact Hparse |].
        apply classify_Invalid_inv in Hinv. tauto.
    + intros [H | [H | [H | [H | (cp & Hparse & Hcp)]]]].
      * apply Hlen, valid_length_int32. auto.
      * apply Hlen, valid_length_int32. auto.
      * apply Hlen, valid_length_int32. auto.
      * apply encode_unparsed. rewrite hexCharToValue_char.
        apply all_hex_digits_false_iff in H. rewrite H.
        rewrite andb_false_r. reflexivity.
      * apply (encode_Invalid s cp Hparse). tauto.
  - vm_compute. reflexivity.
  - vm_compute. reflexivity.
  - vm_compute. reflexivity.
  - intros s H9. apply Hlen, valid_length_int32.
    right; right. rewrite H9. lia.
Qed.

Lemma C6_failure_conditions_witness :
  encode "D800" = Some [].
Proof.
  apply (proj1 C6_failure_conditions "D800").
  right; right; right; right. exists 0xD800.
  split; [vm_compute; reflexivity | lia].
Defined.

(** C7, as the specification states it, fails at the target type the
    encoder uses: ["FFFFFFFF"] has a valid length and valid digits, its
    big-endian value is [4294967295], and the parser returns [-1]. *)
Lemma C7_counterexample :
  String.length "FFFFFFFF" = 8%nat
  /\ Z.of_nat (String.length "FFFFFFFF") <= sizeofT int32_t * 2
  /\ all_hex_digits "FFFFFFFF" = true
  /\ be_sum (digits "FFFFFFFF") = 4294967295
  /\ hexCharToValue int32_t "FFFFFFFF" = Some (-1)
  /\ hexCharToValue int32_t "FFFFFFFF" <> Some (be_sum (digits "FFFFFFFF")).
Proof.
  assert (Hparse : hexCharToValue int32_t "FFFFFFFF" = Some (-1))
    by (vm_compute; reflexivity).
  assert (Hsum : be_sum (digits "FFFFFFFF") = 4294967295)
    by (vm_compute; reflexivity).
  split; [reflexivity |]. split; [vm_compute; discriminate |].
  split; [vm_compute; reflexivity |]. split; [exact Hsum |].
  split; [exact Hparse |].
  rewrite Hparse, Hsum. discriminate.
Qed.

(** C7, amended.  For every hex string of even, non-zero length not
    exceeding the digit bound of the target type whose characters are all
    valid hex digits, the parser returns the big-endian value
    [sum over i of digit_i * 16^(n-1-i)] whenever that value is
    representable in the target type (for a signed type: below half its
    range; for [bool]: 0 or 1) and the target type is at most 32 bits wide
    or the value is below [2^31]; in particular an all-zero string of
    valid length parses to [0]. *)
Theorem C7_parser_big_endian :
  (forall (T : IntegralType) (s : string),
      String.length s <> 0%nat ->
      Nat.even (String.length s) = true ->
      Z.of_nat (String.length s) <= sizeofT T * 2 ->
      all_hex_digits s = true ->
      sizeofT T <= 4 \/ be_sum (digits s) < 2 ^ 31 ->
      (signedT T = true -> be_sum (digits s) < 2 ^ (8 * sizeofT T - 1)) ->
      (boolT T = true -> be_sum (digits s) <= 1) ->
      hexCharToValue T s = Some (be_sum (digits s)))
  /\ (forall (T : IntegralType) (s : string),
         String.length s <> 0%nat ->
         Nat.even (String.length s) = true ->
         Z.of_nat (String.length s) <= sizeofT T * 2 ->
         (forall a, In a (list_ascii_of_string s) -> a = "0"%char) ->
         hexCharToValue T s = Some 0).
Proof.
  split.
  - intros T s H0 He Hl Hall Hfit Hsigned Hbool.
    apply hexCharToValue_representable; try assumption.
    apply valid_length_true; assumption.
  - intros T s H0 He Hl Hzero.
    destruct (be_sum_zeros s Hzero) as [Hall Hsum].
    replace (Some 0) with (Some (be_sum (digits s)))
      by (rewrite Hsum; reflexivity).
    apply hexCharToValue_representable; try assumption.
    + apply valid_length_true; assumption.
    + right. rewrite Hsum. reflexivity.
    + intros _. rewrite Hsum. apply Z.pow_pos_nonneg; lia.
    + intros _. rewrite Hsum. lia.
Qed.

Lemma C7_parser_big_endian_witness :
  hexCharToValue int32_t "7FfF00a9" = Some (be_sum (digits "7FfF00a9")).
Proof.
  apply (proj1 C7_parser_big_endian int32_t "7FfF00a9").
  - discriminate.
  - reflexivity.
  - vm_compute. discriminate.
  - vm_compute. reflexivity.
  - left. vm_compute. discriminate.
  - intros _. vm_compute. reflexivity.
  - intros H. discriminate H.
Defined.

(** C8.  For every accepted four-digit hex string whose code point lies
    in [0x00 .. 0x7F], the encoder returns exactly one byte, equal to the
    code point; ["0000"] gives the byte [0x00] and ["007F"] the byte
    [0x7F]. *)
Theorem C8_ascii_one_byte :
  (forall (s : string) (cp : Z),
      String.length s = 4%nat ->
      hexCharToValue int32_t s = Some cp ->
      0 <= cp <= 0x7F ->
      encode s = Some [cp])
  /\ encode "0000" = Some [0x00]
  /\ encode "007F" = Some [0x7F].
Proof.
  split; [| split].
  - intros s cp _ Hparse Hcp. apply encode_Ascii; assumption.
  - vm_compute. reflexivity.
  - vm_compute. reflexivity.
Qed.

Lemma C8_ascii_one_byte_witness : encode "0041" = Some [0x41].
Proof.
  apply (proj1 C8_ascii_one_byte "0041" 0x41).
  - reflexivity.
  - vm_compute. reflexivity.
  - lia.
Defined.

(** C9, as the specification states it, fails in its last part: the
    encoder is defined outside the digit counts it names.  ["41"] and
    ["000080"] are accepted inputs of the Basic Multilingual Plane with two
    and six digits, and every read of the encoder on them is inside the
    view. *)
Lemma C9_counterexample :
  hexCharToValue int32_t "41" = Some 0x41
  /\ hexCodepointToUtf8String "41" = Some [0x41]
  /\ hexCharToValue int32_t "000080" = Some 0x80
  /\ (exists res, hexCodepointToUtf8String "000080" = Some res)
  /\ ~ (forall (s : string) (cp : Z),
           hexCharToValue int32_t s = Some cp ->
           (exists res, hexCodepointToUtf8String s = Some res) ->
           (0 <= cp <= 0xFFFF -> String.length s = 4%nat)
           /\ (0x10000 <= cp <= 0x10FFFF -> String.length s = 6%nat)).
Proof.
  assert (Hparse : hexCharToValue int32_t "000080" = Some 0x80)
    by (vm_compute; reflexivity).
  assert (Hdef : exists res, hexCodepointToUtf8String "000080" = Some res)
    by (eexists; vm_compute; reflexivity).
  split; [vm_compute; reflexivity |].
  split; [vm_compute; reflexivity |].
  split; [exact Hparse |]. split; [exact Hdef |].
  intros H. destruct (H "000080" 0x80 Hparse Hdef) as [H4 _].
  specialize (H4 ltac:(lia)). discriminate H4.
Qed.

(** C9, amended.  Some accepted inputs make the encoder read past the end
    of the view: ["80"] has two characters, parses to [0x80], is classified
    [Latin], and the Latin case reads positions 1, 2 and 3, of which 2 and
    3 are past the end, so the encoder has no defined result there.  This
    happens on exactly the accepted two-digit inputs that denote
    [0x80 .. 0xFF]; on every other input all reads are inside the view.  In
    particular they are, and the result decodes to the code point, when an
    input of the Basic Multilingual Plane has exactly four digits and one
    of the Extended plane exactly six; nothing in the encoder checks
    that. *)
Theorem C9_reads_past_end :
  String.length "80" = 2%nat
  /\ hexCharToValue int32_t "80" = Some 0x80
  /\ utf8CodePointType 0x80 = Latin
  /\ nibbleAt "80" 1 = Some 0
  /\ nibbleAt "80" 2 = None
  /\ nibbleAt "80" 3 = None
  /\ hexCodepointToUtf8String "80" = None
  /\ (forall s : string,
         hexCodepointToUtf8String s = None
         <-> String.length s = 2%nat
             /\ exists cp, hexCharToValue int32_t s = Some cp
                           /\ 0x80 <= cp <= 0xFF)
  /\ (forall (s : string) (cp : Z),
         hexCharToValue int32_t s = Some cp ->
         (0 <= cp <= 0xFFFF -> String.length s = 4%nat) ->
         (0x10000 <= cp <= 0x10FFFF -> String.length s = 6%nat) ->
         exists bs,
           encode s = Some bs
           /\ (legal_code_point cp -> utf8_decode bs = Some cp)).
Proof.
  split; [reflexivity |].
  split; [vm_compute; reflexivity |].
  split; [reflexivity |].
  split; [vm_compute; reflexivity |].
  split; [reflexivity |].
  split; [reflexivity |].
  split; [vm_compute; reflexivity |].
  split; [exact read_past_end_iff |].
  intros s cp Hparse H4 H6.
  destruct (Z.lt_ge_cases cp 0) as [Hneg | Hpos].
  { exists []. split; [apply (encode_Invalid s cp Hparse); lia |].
    intros [Hr _]. lia. }
  destruct (Z.le_gt_cases cp 0xFFFF) as [Hbmp | Habove].
  { specialize (H4 ltac:(lia)).
    destruct (Z.lt_ge_cases cp 0xD800) as [Hlo | Hlo];
      [apply roundtrip4 with (cp := cp) in H4 as (bs & Henc & Hdec);
       [eauto | exact Hparse | split; lia] |].
    destruct (Z.le_gt_cases cp 0xDFFF) as [Hsur | Hhi].
    - exists []. split; [apply (encode_Invalid s cp Hparse); lia |].
      intros [_ Hns]. exfalso. apply Hns. lia.
    - apply roundtrip4 with (cp := cp) in H4 as (bs & Henc & Hdec);
        [eauto | exact Hparse | split; lia]. }
  destruct (Z.le_gt_cases cp 0x10FFFF) as [Hext | Hbig].
  - specialize (H6 ltac:(lia)).
    apply roundtrip6 with (cp := cp) in H6 as (bs & Henc & Hdec);
      [eauto | exact Hparse | lia].
  - exists []. split; [apply (encode_Invalid s cp Hparse); lia |].
    intros [Hr _]. lia.
Qed.

Lemma C9_reads_past_end_witness :
  exists bs,
    encode "0080" = Some bs
    /\ (legal_code_point 0x80 -> utf8_decode bs = Some 0x80).
Proof.
  apply (proj2 (proj2 (proj2 (proj2 (proj2 (proj2 (proj2 (proj2
           C9_reads_past_end))))))) "0080" 0x80).
  - vm_compute. reflexivity.
  - intros _. reflexivity.
  - intros H. lia.
Defined.

(** C10.  The encoder parses into a signed 32-bit holder, so every
    eight-digit hex string whose leading digit is 8 or more parses to a
    negative value, its unsigned value reduced by [2^32]; the classifier
    answers [Invalid] and the encoder returns the empty result.
    ["FFFFFFFF"] parses to [-1]. *)
Theorem C10_signed_holder :
  (forall s : string,
      String.length s = 8%nat ->
      all_hex_digits s = true ->
      8 <= hd 0 (digits s) ->
      exists cp,
        hexCharToValue int32_t s = Some cp
        /\ cp = be_sum (digits s) - 2 ^ 32
        /\ cp < 0
        /\ utf8CodePointType cp = Invalid
        /\ encode s = Some [])
  /\ hexCharToValue int32_t "FFFFFFFF" = Some (-1)
  /\ encode "FFFFFFFF" = Some [].
Proof.
  split; [| split; vm_compute; reflexivity].
  intros s Hlen Hall Hlead.
  assert (Hv : valid_length int32_t s = true).
  { apply valid_length_true; rewrite Hlen; [discriminate | reflexivity |].
    vm_compute. discriminate. }
  pose proof (be_sum_bounds s Hall) as Hb. rewrite Hlen in Hb.
  change (16 ^ Z.of_nat 8) with 4294967296 in Hb.
  assert (Hlo : 2147483648 <= be_sum (digits s)).
  { destruct s as [| a s]; [discriminate Hlen |].
    rewrite all_hex_digits_cons in Hall. apply andb_true_iff in Hall.
    destruct Hall as [_ Hs]. pose proof (be_sum_bounds s Hs) as Hbs.
    rewrite digits_cons in Hlead |- *. cbn [hd] in Hlead. cbn [be_sum].
    rewrite digits_length. injection Hlen as Hlen. rewrite Hlen in Hbs |- *.
    change (16 ^ Z.of_nat 7) with 268435456 in Hbs |- *. lia. }
  assert (Hcp : to_int (be_sum (digits s)) = be_sum (digits s) - 2 ^ 32).
  { change (2 ^ 32) with 4294967296.
    apply to_int_unique with (q := -1); [lia |].
    change (2 ^ 31) with 2147483648. lia. }
  assert (Hparse : hexCharToValue int32_t s
                   = Some (be_sum (digits s) - 2 ^ 32)).
  { rewrite hexCharToValue_char, Hv, Hall. cbn [andb].
    rewrite convert_int32, Hcp. reflexivity. }
  assert (Hneg : be_sum (digits s) - 2 ^ 32 < 0)
    by (change (2 ^ 32) with 4294967296; lia).
  exists (be_sum (digits s) - 2 ^ 32).
  split; [exact Hparse |]. split; [reflexivity |]. split; [exact Hneg |].
  split; [apply classify_Invalid; left; exact Hneg |].
  apply (encode_Invalid s _ Hparse). left. exact Hneg.
Qed.

Lemma C10_signed_holder_witness :
  exists cp,
    hexCharToValue int32_t "80000000" = Some cp
    /\ cp = be_sum (digits "80000000") - 2 ^ 32
    /\ cp < 0
    /\ utf8CodePointType cp = Invalid
    /\ encode "80000000" = Some [].
Proof.
  apply (proj1 C10_signed_holder "80000000").
  - reflexivity.
  - vm_compute. reflexivity.
  - vm_compute. discriminate.
Defined.

(** * Further properties of the code *)

(** ** The input is read through its digit values only *)

Section DigitValuesOnly.

Lemma all_hex_digits_digits (s : string) :
  all_hex_digits s = forallb (fun d => 0 <=? d) (digits s).
Proof.
  induction s as [| a s IH]; [reflexivity |].
  rewrite all_hex_digits_cons, digits_cons. cbn [forallb]. rewrite <- IH.
  f_equal. pose proof (hexCharToByte_negative_iff a) as H.
  destruct (is_hex_digit a); cbn [negb] in H; lia.
Qed.

Lemma valid_length_digits (T : IntegralType) (s s' : string) :
  digits s = digits s' -> valid_length T s = valid_length T s'.
Proof.
  intros H. unfold valid_length.
  rewrite <- (digits_length s), <- (digits_length s'), H. reflexivity.
Qed.

Lemma hexCharToValue_digits (T : IntegralType) (s s' : string) :
  digits s = digits s' -> hexCharToValue T s = hexCharToValue T s'.
Proof.
  intros H. rewrite !hexCharToValue_char, !all_hex_digits_digits.
  rewrite (valid_length_digits T s s' H), H. reflexivity.
Qed.

Lemma hexCodepointToUtf8String_digits (s s' : string) :
  digits s = digits s' ->
  hexCodepointToUtf8String s = hexCodepointToUtf8String s'.
Proof.
  intros H. unfold hexCodepointToUtf8String.
  rewrite (hexCharToValue_digits int32_t s s' H), !nibbleAt_digits, H.
  reflexivity.
Qed.

Lemma to_upper_value (a : ascii) :
  hexCharToByte (char_of_ascii (to_upper a)) = hexCharToByte (char_of_ascii a).
Proof.
  destruct a as [[] [] [] [] [] [] [] []]; vm_compute; reflexivity.
Qed.

Lemma digits_to_upper (s : string) : digits (string_to_upper s) = digits s.
Proof.
  induction s as [| a s IH]; [reflexivity |].
  cbn [string_to_upper]. rewrite !digits_cons, IH, to_upper_value.
  reflexivity.
Qed.

End DigitValuesOnly.

(** X1.  The hex-digit decoder answers a value of [0 .. 15] on exactly the
    22 characters [0-9], [a-f], [A-F] and [-1] on every other character;
    a letter decodes alike in both cases, and the digit written for a value
    decodes back to that value. *)
Theorem X1_hex_digit_decoder :
  (forall a : ascii,
      (is_hex_digit a = true <-> 0 <= hexCharToByte (char_of_ascii a) < 16)
      /\ (is_hex_digit a = false <-> hexCharToByte (char_of_ascii a) = -1)
      /\ hexCharToByte (char_of_ascii (to_upper a))
         = hexCharToByte (char_of_ascii a))
  /\ (forall d : Z,
         0 <= d < 16 -> hexCharToByte (char_of_ascii (hex_digit d)) = d).
Proof.
  split.
  - intros a. pose proof (hexCharToByte_classify a) as H.
    split; [| split].
    + destruct (is_hex_digit a).
      * apply andb_true_iff in H. split; [lia | reflexivity].
      * split; [discriminate | lia].
    + destruct (is_hex_digit a).
      * apply andb_true_iff in H. split; [discriminate | lia].
      * split; [lia | reflexivity].
    + apply to_upper_value.
  - intros d Hd. apply hex_digit_value, Hd.
Qed.

Lemma X1_hex_digit_decoder_witness :
  hexCharToByte (char_of_ascii (hex_digit 11)) = 11.
Proof.
  apply (proj2 X1_hex_digit_decoder 11). lia.
Defined.

(** X2.  At every target type, the parser returns no value exactly when
    the input is empty, or of odd length, or longer than twice the size of
    the type, or contains a character that is not a hex digit. *)
Theorem X2_parser_failure (T : IntegralType) (s : string) :
  hexCharToValue T s = None
  <-> (String.length s = 0%nat
       \/ Nat.odd (String.length s) = true
       \/ sizeofT T * 2 < Z.of_nat (String.length s)
       \/ exists a, In a (list_ascii_of_string s) /\ is_hex_digit a = false).
Proof.
  rewrite hexCharToValue_char, <- all_hex_digits_false_iff.
  unfold valid_length. cbv zeta. rewrite odd_length_mod.
  destruct (Z.eqb_spec (Z.of_nat (String.length s)) 0) as [H0 | H0];
    destruct (Nat.odd (String.length s));
    destruct (Z.leb_spec (Z.of_nat (String.length s)) (sizeofT T * 2))
      as [Hl | Hl];
    destruct (all_hex_digits s);
    cbn [negb andb]; split; intros H; try reflexivity; try discriminate H;
    try (left; lia); try (right; left; reflexivity);
    try (right; right; left; lia); try (right; right; right; reflexivity);
    destruct H as [H | [H | [H | H]]]; try discriminate H; lia.
Qed.

(** X3.  Letter case does not matter: the parser, at every target type,
    and the encoder return for the upper-case spelling of an input what
    they return for the input. *)
Theorem X3_case_insensitive (s : string) :
  (forall T : IntegralType,
      hexCharToValue T (string_to_upper s) = hexCharToValue T s)
  /\ hexCodepointToUtf8String (string_to_upper s)
     = hexCodepointToUtf8String s.
Proof.
  split.
  - intros T. apply hexCharToValue_digits, digits_to_upper.
  - apply hexCodepointToUtf8String_digits, digits_to_upper.
Qed.

(** X4.  The parser ignores a leading pair of zeros: when a non-empty
    input still fits the target type after ["00"] is put in front of it,
    both spellings parse alike. *)
Theorem X4_leading_zeros (T : IntegralType) (s : string) :
  String.length s <> 0%nat ->
  Z.of_nat (String.length s) + 2 <= sizeofT T * 2 ->
  hexCharToValue T (String "0" (String "0" s)) = hexCharToValue T s.
Proof.
  intros Hne Hfit. rewrite !hexCharToValue_char.
  assert (Hv : valid_length T (String "0" (String "0" s)) = valid_length T s).
  { unfold valid_length. cbv zeta. rewrite !odd_length_mod.
    cbn [String.length]. rewrite !Nat.odd_succ, <- Nat.negb_odd, Nat.odd_succ.
    rewrite Nat.negb_even.
    destruct (Z.eqb_spec (Z.of_nat (S (S (String.length s)))) 0); [lia |].
    destruct (Z.eqb_spec (Z.of_nat (String.length s)) 0); [lia |].
    destruct (Z.leb_spec (Z.of_nat (S (S (String.length s)))) (sizeofT T * 2));
      [| lia].
    destruct (Z.leb_spec (Z.of_nat (String.length s)) (sizeofT T * 2));
      [| lia].
    reflexivity. }
  rewrite Hv, !all_hex_digits_cons, !digits_cons.
  change (is_hex_digit "0") with true.
  change (hexCharToByte (char_of_ascii "0")) with 0.
  cbn [andb be_sum]. rewrite !Z.mul_0_l, !Z.add_0_l. reflexivity.
Qed.

Lemma X4_leading_zeros_witness :
  hexCharToValue int32_t (String "0" (String "0" "20AC"))
  = hexCharToValue int32_t "20AC".
Proof.
  apply (X4_leading_zeros int32_t "20AC").
  - discriminate.
  - vm_compute. discriminate.
Defined.

(** ** The result of the encoder on every accepted input *)

Section AcceptedInputs.

Ltac split_ranges :=
  repeat match goal with
         | H : Forall _ (_ :: _) |- _ => inversion H; clear H; subst
         end.

Ltac bools_to_props :=
  repeat (apply andb_true_iff; split); try apply Z.leb_le; try reflexivity.

Lemma classify_spec (cp : Z) :
  (0 <= cp <= 0x7F /\ utf8CodePointType cp = Ascii)
  \/ (0x80 <= cp <= 0x7FF /\ utf8CodePointType cp = Latin)
  \/ ((0x800 <= cp <= 0xD7FF \/ 0xE000 <= cp <= 0xFFFF)
      /\ utf8CodePointType cp = MultiLingual)
  \/ (0x10000 <= cp <= 0x10FFFF /\ utf8CodePointType cp = Extended)
  \/ ((cp < 0 \/ 0xD800 <= cp <= 0xDFFF \/ 0x10FFFF < cp)
      /\ utf8CodePointType cp = Invalid).
Proof.
  destruct (Z.lt_ge_cases cp 0);
    [right; right; right; right; split; [lia | apply classify_Invalid; lia] |].
  destruct (Z.le_gt_cases cp 0x7F);
    [left; split; [lia | apply classify_Ascii; lia] |].
  destruct (Z.le_gt_cases cp 0x7FF);
    [right; left; split; [lia | apply classify_Latin; lia] |].
  destruct (Z.le_gt_cases cp 0xD7FF);
    [right; right; left; split; [lia | apply classify_MultiLingual; lia] |].
  destruct (Z.le_gt_cases cp 0xDFFF);
    [right; right; right; right; split; [lia | apply classify_Invalid; lia] |].
  destruct (Z.le_gt_cases cp 0xFFFF);
    [right; right; left; split; [lia | apply classify_MultiLingual; lia] |].
  destruct (Z.le_gt_cases cp 0x10FFFF);
    [right; right; right; left; split; [lia | apply classify_Extended; lia] |].
  right; right; right; right; split; [lia | apply classify_Invalid; lia].
Qed.

(** Length and prefixes of whatever the encoder returns. *)
Lemma encode_shape (s : string) (cp : Z) (bs : list Z) :
  hexCharToValue int32_t s = Some cp ->
  encode s = Some bs ->
  List.length bs = plane_length (utf8CodePointType cp)
  /\ (bs <> [] -> utf8_shaped bs = true).
Proof.
  intros Hparse Henc.
  destruct (hexCharToValue_int32_inv s cp Hparse) as (_ & Hall & _).
  pose proof (digits_range s Hall) as Hran.
  unfold encode, hexCodepointToUtf8String in Henc.
  rewrite Hparse, !nibbleAt_digits in Henc.
  destruct (classify_spec cp)
    as [[Hr Hp] | [[Hr Hp] | [[Hr Hp] | [[Hr Hp] | [Hr Hp]]]]];
    rewrite Hp in Henc |- *.
  - cbn [option_map map] in Henc. injection Henc as <-.
    rewrite to_char_small by lia.
    unfold byte_of_char, wrap_unsigned. change (2 ^ 8) with 256.
    rewrite Z.mod_small by lia.
    split; [reflexivity | intros _].
    unfold utf8_shaped, is_lead_byte. cbn [List.length forallb].
    bools_to_props; lia.
  - destruct (digits s) as [| d0 [| d1 [| d2 [| d3 ds]]]];
      cbn [nth_error bind option_map map] in Henc; try discriminate Henc.
    injection Henc as <-. split_ranges.
    rewrite latinByte1_bits, latinByte2_bits by assumption.
    split; [reflexivity | intros _].
    unfold utf8_shaped, is_lead_byte, is_continuation.
    cbn [List.length forallb].
    bools_to_props; Z.div_mod_to_equations; lia.
  - destruct (digits s) as [| d0 [| d1 [| d2 [| d3 ds]]]];
      cbn [nth_error bind option_map map] in Henc; try discriminate Henc.
    injection Henc as <-. split_ranges.
    rewrite multiLingByte1_bits, multiLingByte2_bits, multiLingByte3_bits
      by assumption.
    split; [reflexivity | intros _].
    unfold utf8_shaped, is_lead_byte, is_continuation.
    cbn [List.length forallb].
    bools_to_props; Z.div_mod_to_equations; lia.
  - destruct (digits s) as [| d0 [| d1 [| d2 [| d3 [| d4 [| d5 ds]]]]]];
      cbn [nth_error bind option_map map] in Henc; try discriminate Henc.
    injection Henc as <-. split_ranges.
    rewrite extendedByte1_bits, extendedByte2_bits, extendedByte3_bits,
      extendedByte4_bits by assumption.
    split; [reflexivity | intros _].
    unfold utf8_shaped, is_lead_byte, is_continuation.
    cbn [List.length forallb].
    bools_to_props; Z.div_mod_to_equations; lia.
  - cbn [option_map map] in Henc. injection Henc as <-.
    split; [reflexivity | intros Hne; exfalso; apply Hne; reflexivity].
Qed.

(** Eight digits: the holder is full and the value may have wrapped. *)
Lemma parse8 (s : string) (cp : Z) :
  String.length s = 8%nat ->
  hexCharToValue int32_t s = Some cp ->
  exists d0 d1 d2 d3 d4 d5 d6 d7,
    digits s = [d0; d1; d2; d3; d4; d5; d6; d7]
    /\ (0 <= d0 < 16 /\ 0 <= d1 < 16 /\ 0 <= d2 < 16 /\ 0 <= d3 < 16
        /\ 0 <= d4 < 16 /\ 0 <= d5 < 16 /\ 0 <= d6 < 16 /\ 0 <= d7 < 16)
    /\ exists q,
         cp = d0 * 268435456 + d1 * 16777216 + d2 * 1048576 + d3 * 65536
              + d4 * 4096 + d5 * 256 + d6 * 16 + d7 + 4294967296 * q.
Proof.
  intros Hlen Hparse.
  apply hexCharToValue_int32_inv in Hparse as (_ & Hall & ->).
  pose proof (digits_range s Hall) as Hran.
  pose proof (digits_length s) as Hdl. rewrite Hlen in Hdl.
  destruct (digits s)
    as [| d0 [| d1 [| d2 [| d3 [| d4 [| d5 [| d6 [| d7 [| d8 ds]]]]]]]]];
    try discriminate Hdl.
  split_ranges.
  exists d0, d1, d2, d3, d4, d5, d6, d7. repeat split; try lia.
  destruct (to_int_spec (be_sum [d0; d1; d2; d3; d4; d5; d6; d7])) as [q Hq].
  exists q. rewrite Hq. cbn [be_sum List.length]. simpl Z.of_nat.
  change (16 ^ 7) with 268435456. change (16 ^ 6) with 16777216.
  change (16 ^ 5) with 1048576. change (16 ^ 4) with 65536.
  change (16 ^ 3) with 4096. change (16 ^ 2) with 256.
  change (16 ^ 1) with 16. change (16 ^ 0) with 1. lia.
Qed.

Lemma utf8_decode_3_overlong (b1 b2 b3 : Z) :
  (b1 - 0xE0) * 4096 + (b2 - 0x80) * 64 + (b3 - 0x80) < 0x800 ->
  utf8_decode [b1; b2; b3] = None.
Proof.
  intros H. unfold utf8_decode. cbv zeta.
  destruct (_ && _ && _ && _); [| reflexivity].
  destruct (Z.ltb_spec ((b1 - 0xE0) * 4096 + (b2 - 0x80) * 64 + (b3 - 0x80))
              0x800); [reflexivity | lia].
Qed.

Lemma utf8_decode_4_overlong (b1 b2 b3 b4 : Z) :
  (b1 - 0xF0) * 262144 + (b2 - 0x80) * 4096 + (b3 - 0x80) * 64 + (b4 - 0x80)
  < 0x10000 ->
  utf8_decode [b1; b2; b3; b4] = None.
Proof.
  intros H. unfold utf8_decode. cbv zeta.
  destruct (_ && _ && _ && _ && _); [| reflexivity].
  destruct (Z.ltb_spec ((b1 - 0xF0) * 262144 + (b2 - 0x80) * 4096
                        + (b3 - 0x80) * 64 + (b4 - 0x80)) 0x10000);
    [reflexivity | lia].
Qed.

(** More digits than the case of the [switch] is written for: the bytes
    are taken from the zeros in front, and the sequence is overlong. *)
Lemma off_width_rejected (s : string) (cp : Z) :
  hexCharToValue int32_t s = Some cp ->
  legal_code_point cp ->
  0x80 <= cp ->
  (String.length s = 6%nat /\ cp <= 0xFFFF) \/ String.length s = 8%nat ->
  exists bs, encode s = Some bs /\ utf8_decode bs = None.
Proof.
  intros Hparse [Hran Hsur] Hlo [[Hlen Hbmp] | Hlen].
  - destruct (parse6 s cp Hlen Hparse)
      as (d0 & d1 & d2 & d3 & d4 & d5 & Hds & Hr & Hcp).
    assert (d0 = 0) by lia. assert (d1 = 0) by lia. subst d0 d1.
    destruct (Z.le_gt_cases cp 0x7FF) as [Hl | Hl].
    + assert (d2 = 0) by lia. subst d2.
      eexists. split;
        [eapply encode_Latin; [exact Hparse | lia | exact Hds] |].
      reflexivity.
    + eexists. split;
        [eapply encode_MultiLingual; [exact Hparse | lia | exact Hds] |].
      rewrite multiLingByte1_bits, multiLingByte2_bits, multiLingByte3_bits
        by lia.
      apply utf8_decode_3_overlong. Z.div_mod_to_equations. lia.
  - destruct (parse8 s cp Hlen Hparse)
      as (d0 & d1 & d2 & d3 & d4 & d5 & d6 & d7 & Hds & Hr & q & Hcp).
    assert (q = 0) by lia. subst q.
    assert (d0 = 0) by lia. assert (d1 = 0) by lia. subst d0 d1.
    destruct (Z.le_gt_cases cp 0x7FF) as [Hl | Hl].
    + assert (d2 = 0) by lia. assert (d3 = 0) by lia. subst d2 d3.
      eexists. split;
        [eapply encode_Latin; [exact Hparse | lia | exact Hds] |].
      reflexivity.
    + destruct (Z.le_gt_cases cp 0xFFFF) as [Hm | Hm].
      * assert (d2 = 0) by lia. assert (d3 = 0) by lia. subst d2 d3.
        eexists. split;
          [eapply encode_MultiLingual; [exact Hparse | lia | exact Hds] |].
        reflexivity.
      * eexists. split;
          [eapply encode_Extended; [exact Hparse | lia | exact Hds] |].
        rewrite extendedByte1_bits, extendedByte2_bits, extendedByte3_bits,
          extendedByte4_bits by lia.
        apply utf8_decode_4_overlong. Z.div_mod_to_equations. lia.
Qed.

(** The digits match the case of the [switch]: the result decodes. *)
Lemma matched_width_decodes (s : string) (cp : Z) :
  hexCharToValue int32_t s = Some cp ->
  legal_code_point cp ->
  String.length s = (if cp <=? 0xFFFF then 4%nat else 6%nat) ->
  exists bs, encode s = Some bs /\ utf8_decode bs = Some cp.
Proof.
  intros Hparse Hlegal Hlen.
  destruct (Z.leb_spec cp 0xFFFF) as [Hle | Hgt].
  - apply roundtrip4; assumption.
  - destruct Hlegal as [Hran _]. apply roundtrip6; [assumption .. | lia].
Qed.

End AcceptedInputs.

(** X5.  Whatever the encoder returns for an accepted input has the
    number of bytes of the case of the [switch] its code point selects (1,
    2, 3, 4, or none for [Invalid]), and a non-empty result is always a
    lead byte for that length followed by continuation bytes, also when
    the input has more digits than the case expects. *)
Theorem X5_result_shape (s : string) (cp : Z) (bs : list Z) :
  hexCharToValue int32_t s = Some cp ->
  encode s = Some bs ->
  List.length bs = plane_length (utf8CodePointType cp)
  /\ (bs <> [] -> utf8_shaped bs = true).
Proof.
  intros Hparse Henc. apply (encode_shape s cp bs Hparse Henc).
Qed.

Lemma X5_result_shape_witness :
  List.length [0xC0; 0x80] = plane_length (utf8CodePointType 0x80)
  /\ ([0xC0; 0x80] <> [] -> utf8_shaped [0xC0; 0x80] = true).
Proof.
  apply (X5_result_shape "000080" 0x80 [0xC0; 0x80]).
  - vm_compute. reflexivity.
  - vm_compute. reflexivity.
Defined.

(** X6.  The encoder reads past the end of its input on exactly the
    two-digit inputs that denote [0x80 .. 0xFF]; on every other input all
    its reads are inside the view. *)
Theorem X6_reads_past_end_exactly (s : string) :
  hexCodepointToUtf8String s = None
  <-> String.length s = 2%nat
      /\ exists cp, hexCharToValue int32_t s = Some cp /\ 0x80 <= cp <= 0xFF.
Proof.
  apply read_past_end_iff.
Qed.

(** X7.  For an accepted input that denotes a legal code point from
    [0x80] on, the result decodes to the code point if and only if the
    input has four digits up to U+FFFF and six digits above: the exact
    digit count is needed, not only sufficient. *)
Theorem X7_round_trip_iff_width (s : string) (cp : Z) :
  hexCharToValue int32_t s = Some cp ->
  0x80 <= cp <= 0x10FFFF ->
  ~ (0xD800 <= cp <= 0xDFFF) ->
  ((exists bs, encode s = Some bs /\ utf8_decode bs = Some cp)
   <-> String.length s = (if cp <=? 0xFFFF then 4%nat else 6%nat)).
Proof.
  intros Hparse Hran Hsur.
  assert (Hlegal : legal_code_point cp) by (split; [lia | exact Hsur]).
  split; [| apply matched_width_decodes; assumption].
  intros (bs & Henc & Hdec).
  assert (Hoff : (String.length s = 6%nat /\ cp <= 0xFFFF)
                 \/ String.length s = 8%nat -> False).
  { intros Hw.
    destruct (off_width_rejected s cp Hparse Hlegal ltac:(lia) Hw)
      as (bs' & Henc' & Hdec').
    rewrite Henc in Henc'. injection Henc' as <-.
    rewrite Hdec in Hdec'. discriminate Hdec'. }
  destruct (accepted_length s cp Hparse) as [H | [H | [H | H]]].
  - exfalso.
    assert (Hnone : hexCodepointToUtf8String s = None).
    { apply read_past_end_iff. split; [exact H |].
      exists cp. split; [exact Hparse |].
      pose proof (parsed_bound s cp Hparse ltac:(lia)) as Hb.
      rewrite H in Hb. change (16 ^ Z.of_nat 2) with 256 in Hb. lia. }
    unfold encode in Henc. rewrite Hnone in Henc. discriminate Henc.
  - pose proof (parsed_bound s cp Hparse ltac:(lia)) as Hb.
    rewrite H in Hb. change (16 ^ Z.of_nat 4) with 65536 in Hb.
    destruct (Z.leb_spec cp 0xFFFF); [exact H | lia].
  - destruct (Z.leb_spec cp 0xFFFF); [| exact H].
    exfalso. apply Hoff. left. split; [exact H | lia].
  - exfalso. apply Hoff. right. exact H.
Qed.

Lemma X7_round_trip_iff_width_witness :
  (exists bs, encode "0020AC" = Some bs /\ utf8_decode bs = Some 0x20AC)
  <-> 6%nat = (if 0x20AC <=? 0xFFFF then 4%nat else 6%nat).
Proof.
  apply (X7_round_trip_iff_width "0020AC" 0x20AC).
  - vm_compute. reflexivity.
  - lia.
  - lia.
Defined.



(** X9.  For an accepted input that denotes a legal code point, the bytes
    picked from the digit positions are the bytes computed from the value
    of the code point, provided the code point is below [0x80] (any
    accepted digit count) or the input has four digits up to U+FFFF and
    six digits above. *)
Theorem X9_bytes_from_value (s : string) (cp : Z) :
  hexCharToValue int32_t s = Some cp ->
  0 <= cp <= 0x10FFFF ->
  ~ (0xD800 <= cp <= 0xDFFF) ->
  cp <= 0x7F \/ String.length s = (if cp <=? 0xFFFF then 4%nat else 6%nat) ->
  encode s = Some (utf8_of_code_point cp).
Proof.
  intros Hparse Hran Hsur Hw. unfold utf8_of_code_point.
  destruct (Z.leb_spec cp 0x7F) as [Ha | Ha];
    [apply encode_Ascii; [exact Hparse | lia] |].
  destruct Hw as [Hw | Hlen]; [lia |].
  destruct (Z.leb_spec cp 0xFFFF) as [Hbmp | Hext].
  - destruct (parse4 s cp Hlen Hparse)
      as (d0 & d1 & d2 & d3 & Hds & (H0 & H1 & H2 & H3) & Hcp).
    destruct (Z.leb_spec cp 0x7FF) as [Hl | Hl].
    + rewrite (encode_Latin s cp d0 d1 d2 d3 [] Hparse ltac:(lia) Hds).
      rewrite latinByte1_bits, latinByte2_bits by assumption.
      assert (E1 : 0xC0 + d1 mod 8 * 4 + d2 / 4 = 0xC0 + cp / 64)
        by (Z.div_mod_to_equations; lia).
      assert (E2 : 0x80 + d2 mod 4 * 16 + d3 = 0x80 + cp mod 64)
        by (Z.div_mod_to_equations; lia).
      rewrite E1, E2. reflexivity.
    + rewrite (encode_MultiLingual s cp d0 d1 d2 d3 [] Hparse ltac:(lia) Hds).
      rewrite multiLingByte1_bits, multiLingByte2_bits, multiLingByte3_bits
        by assumption.
      assert (E1 : 0xE0 + d0 = 0xE0 + cp / 4096)
        by (Z.div_mod_to_equations; lia).
      assert (E2 : 0x80 + d1 * 4 + d2 / 4 = 0x80 + cp / 64 mod 64)
        by (Z.div_mod_to_equations; lia).
      assert (E3 : 0x80 + d2 mod 4 * 16 + d3 = 0x80 + cp mod 64)
        by (Z.div_mod_to_equations; lia).
      rewrite E1, E2, E3. reflexivity.
  - destruct (parse6 s cp Hlen Hparse)
      as (d0 & d1 & d2 & d3 & d4 & d5 & Hds
          & (H0 & H1 & H2 & H3 & H4 & H5) & Hcp).
    destruct (Z.leb_spec cp 0x7FF) as [Hl | Hl]; [lia |].
    rewrite (encode_Extended s cp d0 d1 d2 d3 d4 d5 [] Hparse ltac:(lia) Hds).
    rewrite extendedByte1_bits, extendedByte2_bits, extendedByte3_bits,
      extendedByte4_bits by assumption.
    assert (E1 : 0xF0 + d0 mod 2 * 4 + d1 / 4 = 0xF0 + cp / 262144)
      by (Z.div_mod_to_equations; lia).
    assert (E2 : 0x80 + d1 mod 4 * 16 + d2 = 0x80 + cp / 4096 mod 64)
      by (Z.div_mod_to_equations; lia).
    assert (E3 : 0x80 + d3 * 4 + d4 / 4 = 0x80 + cp / 64 mod 64)
      by (Z.div_mod_to_equations; lia).
    assert (E4 : 0x80 + d4 mod 4 * 16 + d5 = 0x80 + cp mod 64)
      by (Z.div_mod_to_equations; lia).
    rewrite E1, E2, E3, E4. reflexivity.
Qed.

Lemma X9_bytes_from_value_witness :
  encode "01f600" = Some (utf8_of_code_point 0x1F600).
Proof.
  apply (X9_bytes_from_value "01f600" 0x1F600).
  - vm_compute. reflexivity.
  - lia.
  - lia.
  - right. reflexivity.
Defined.

(** X10.  On inputs of the digit count the encoder is written for, two
    inputs that denote different legal code points never get the same
    bytes. *)
Theorem X10_distinct_code_points (s1 s2 : string) (cp1 cp2 : Z) :
  hexCharToValue int32_t s1 = Some cp1 ->
  hexCharToValue int32_t s2 = Some cp2 ->
  legal_code_point cp1 ->
  legal_code_point cp2 ->
  String.length s1 = (if cp1 <=? 0xFFFF then 4%nat else 6%nat) ->
  String.length s2 = (if cp2 <=? 0xFFFF then 4%nat else 6%nat) ->
  encode s1 = encode s2 ->
  cp1 = cp2.
Proof.
  intros Hp1 Hp2 Hl1 Hl2 Hw1 Hw2 Heq.
  destruct (matched_width_decodes s1 cp1 Hp1 Hl1 Hw1) as (bs1 & He1 & Hd1).
  destruct (matched_width_decodes s2 cp2 Hp2 Hl2 Hw2) as (bs2 & He2 & Hd2).
  rewrite He1, He2 in Heq. injection Heq as <-.
  rewrite Hd1 in Hd2. injection Hd2 as ->. reflexivity.
Qed.

Lemma X10_distinct_code_points_witness : 0xE9 = 0xE9.
Proof.
  apply (X10_distinct_code_points "00E9" "00e9" 0xE9 0xE9);
    try (vm_compute; reflexivity); try reflexivity;
    split; simpl; lia.
Defined.

(** X11.  An accepted input of at most six digits parses to a value of
    [0 .. 16^n - 1] for its [n] digits, so a negative code point comes from
    eight digits only, the [MultiLingual] case is entered with at least
    four digits and the [Extended] case with at least six: of the cases
    that index the input, [Latin] alone can meet an input too short. *)
Theorem X11_digits_bound_the_plane (s : string) (cp : Z) :
  hexCharToValue int32_t s = Some cp ->
  - 2 ^ 31 <= cp < 2 ^ 31
  /\ ((String.length s <= 6)%nat -> 0 <= cp < 16 ^ Z.of_nat (String.length s))
  /\ (cp < 0 -> String.length s = 8%nat)
  /\ (utf8CodePointType cp = MultiLingual -> (4 <= String.length s)%nat)
  /\ (utf8CodePointType cp = Extended -> (6 <= String.length s)%nat).
Proof.
  intros Hparse.
  assert (Hb : (String.length s <= 6)%nat
               -> 0 <= cp < 16 ^ Z.of_nat (String.length s))
    by (apply parsed_bound; exact Hparse).
  split.
  { apply hexCharToValue_int32_inv in Hparse as (_ & _ & ->).
    apply to_int_range. }
  split; [exact Hb |].
  destruct (accepted_length s cp Hparse) as [H | [H | [H | H]]];
    rewrite H in *.
  - specialize (Hb ltac:(lia)). change (16 ^ Z.of_nat 2) with 256 in Hb.
    split; [lia |].
    split; intros Hp;
      destruct (classify_spec cp)
        as [[Hr Hq] | [[Hr Hq] | [[Hr Hq] | [[Hr Hq] | [Hr Hq]]]]];
      rewrite Hq in Hp; try discriminate Hp; lia.
  - specialize (Hb ltac:(lia)). change (16 ^ Z.of_nat 4) with 65536 in Hb.
    split; [lia |]. split; [lia |]. intros Hp.
    destruct (classify_spec cp)
      as [[Hr Hq] | [[Hr Hq] | [[Hr Hq] | [[Hr Hq] | [Hr Hq]]]]];
      rewrite Hq in Hp; try discriminate Hp; lia.
  - specialize (Hb ltac:(lia)). split; [lia |]. split; lia.
  - split; [reflexivity |]. split; lia.
Qed.

Lemma X11_digits_bound_the_plane_witness :
  - 2 ^ 31 <= 0x20AC < 2 ^ 31
  /\ ((String.length "20AC" <= 6)%nat
      -> 0 <= 0x20AC < 16 ^ Z.of_nat (String.length "20AC"))
  /\ (0x20AC < 0 -> String.length "20AC" = 8%nat)
  /\ (utf8CodePointType 0x20AC = MultiLingual
      -> (4 <= String.length "20AC")%nat)
  /\ (utf8CodePointType 0x20AC = Extended
      -> (6 <= String.length "20AC")%nat).
Proof.
  apply (X11_digits_bound_the_plane "20AC" 0x20AC).
  vm_compute. reflexivity.
Defined.
